(** * OSC server: packet decoding and the receive loop of [server.go]

    A shallow embedding of the decode path of the OSC server
    ([readFromConnection], [readPacket], [readBundle], [readMessage],
    [readArguments], [readBlob]) and of handler registration, together
    with the properties the specification states about them.

    Conventions.
    - A [*bufio.Reader] over a [bytes.Buffer] is the list of bytes not yet
      read.  The Go reader is one shared mutable object: every function
      below takes the decoding state and hands it back, also when it fails.
    - Go's [(value, error)] results are [outcome]s: [Ret v] is a nil error,
      [Fail e] a non-nil error, [Panic p] a run-time panic, which no
      function of the file recovers from.
    - [int] counters ([*start], [n], [end]) are [Z]; they are bounded by the
      number of bytes of one datagram, so no wrap-around can take place. *)

From Stdlib Require Import ZArith Lia Strings.Byte Ascii String List.
From stdpp Require Import base gmap strings.
Import ListNotations.
Local Open Scope Z_scope.

(** ** Go types that [encoding/binary] is asked to fill *)

Inductive gotype : Type :=
| Tint32 | Tint64 | Tuint64 | Tfloat32 | Tfloat64
| Tint.  (* the platform-sized [int] *)

(** [binary.dataSize]: the encoded size of a value.  [encoding/binary]
    takes "a pointer to a fixed-size value or a slice of fixed-size values":
    the sized integers, the floats, and arrays and structs of those.  The
    platform-sized [int] is not among them and has no size. *)
Definition dataSize (t : gotype) : option nat :=
  match t with
  | Tint32 | Tfloat32 => Some 4%nat
  | Tint64 | Tuint64 | Tfloat64 => Some 8%nat
  | Tint => None
  end.

(** ** Errors, panics and outcomes *)

Inductive error : Type :=
| EOF                                   (* io.EOF *)
| ErrUnexpectedEOF                      (* io.ErrUnexpectedEOF *)
| ErrBinaryInvalidType (t : gotype)     (* "binary.Read: invalid type *T" *)
| ErrAlreadyRunning                     (* server.go:17 *)
| ErrNoDispatcher                       (* server.go:18 *)
| ErrPrematureClose                     (* server.go:19 *)
| ErrInvalidTypeTag                     (* server.go:20 *)
| ErrUnsupportedTypeTag (c : ascii)     (* "Unsupported type tag: %c" *)
| ErrInvalidBundleTag (startTag : string) (* "Invalid bundle start tag: %s" *)
| ErrConnNil                            (* "self.conn is nil" *)
| ErrNet (msg : string)                 (* an error of package net *)
| ErrTruncatedInput                     (* TruncatedInput of the specification *)
| ErrInvalidAddress.                    (* InvalidAddress of the specification *)

Inductive panic : Type :=
| IndexOutOfRange        (* runtime error: index out of range *)
| MakesliceLenOutOfRange   (* runtime error: makeslice: len out of range *)
| NilPointerDereference.   (* runtime error: invalid memory address or nil pointer dereference *)

Inductive outcome (A : Type) : Type :=
| Ret (a : A)
| Fail (e : error)
| Panic (p : panic)
| OutOfFuel.
Arguments Ret {A} a.
Arguments Fail {A} e.
Arguments Panic {A} p.
Arguments OutOfFuel {A}.

(** The errors that report an input shorter than a field needs: the
    TruncatedInput class of the specification. *)
Definition is_TruncatedInput (e : error) : bool :=
  match e with
  | EOF | ErrUnexpectedEOF | ErrTruncatedInput => true
  | _ => false
  end.

(** ** The decoding state and its monad *)

Record DecState : Type := mkDecState {
  reader : list byte;   (* reader *bufio.Reader: the bytes still unread *)
  start : Z             (* start *int: the bytes accounted for so far *)
}.

Definition M (A : Type) : Type := DecState -> outcome A * DecState.

Definition ret {A} (a : A) : M A := fun st => (Ret a, st).
Definition fail {A} (e : error) : M A := fun st => (Fail e, st).
Definition raise {A} (p : panic) : M A := fun st => (Panic p, st).
Definition out_of_fuel {A} : M A := fun st => (OutOfFuel, st).

Definition bind {A B} (m : M A) (k : A -> M B) : M B :=
  fun st =>
    match m st with
    | (Ret a, st') => k a st'
    | (Fail e, st') => (Fail e, st')
    | (Panic p, st') => (Panic p, st')
    | (OutOfFuel, st') => (OutOfFuel, st')
    end.

Declare Scope go_scope.
Delimit Scope go_scope with go.
Notation "x <- c1 ;; c2" := (bind c1 (fun x => c2))
  (at level 100, c1 at next level, c2 at level 200, right associativity)
  : go_scope.
Notation "c1 ;; c2" := (bind c1 (fun _ => c2))
  (at level 100, c2 at level 200, right associativity) : go_scope.
Local Open Scope go_scope.

(** [*start += n] *)
Definition add_start (n : Z) : M unit :=
  fun st => (Ret tt, mkDecState (reader st) (start st + n)).

(** ** The reader primitives ([bufio], [io], [encoding/binary]) *)

(** [reader.Peek(1)] followed by [buf[0]]: the next byte, not consumed;
    [io.EOF] when nothing is left. *)
Definition Peek1 : M byte :=
  fun st =>
    match reader st with
    | [] => (Fail EOF, st)
    | b :: _ => (Ret b, st)
    end.

(** [io.ReadFull(reader, bs)] with [len(bs) = n]: exactly [n] bytes, or
    [io.EOF] when no byte is left, or [io.ErrUnexpectedEOF] when fewer than
    [n] are; in both failures whatever was left has been consumed. *)
Definition ReadFull (n : nat) : M (list byte) :=
  fun st =>
    let r := reader st in
    if (n <=? length r)%nat
    then (Ret (take n r), mkDecState (drop n r) (start st))
    else (Fail (match r with [] => EOF | _ => ErrUnexpectedEOF end),
          mkDecState [] (start st)).

(** [reader.Read(p)] with [len(p) = n]: copies the bytes that are there, up
    to [n] of them, and reports [io.EOF] only when it is asked for at least
    one byte and none is left.  The count it returns is dropped by every
    caller.  (The 4096-byte chunks in which [bufio] fetches its input, which
    may shorten a read further, are not modelled.) *)
Definition Read (n : nat) : M (list byte) :=
  fun st =>
    let r := reader st in
    match n, r with
    | O, _ => (Ret [], st)
    | _, [] => (Fail EOF, st)
    | _, _ => (Ret (take n r), mkDecState (drop n r) (start st))
    end.

(** Big-endian value of a byte sequence. *)
Definition be_uint (bs : list byte) : Z :=
  fold_left (fun acc b => Z.lor (Z.shiftl acc 8) (Z.of_N (Byte.to_N b))) bs 0.

(** Two's complement reading of a [w]-bit pattern. *)
Definition to_signed (w : Z) (v : Z) : Z :=
  if v <? 2 ^ (w - 1) then v else v - 2 ^ w.

(** The value [binary.BigEndian] stores into a variable of type [t]: the
    integer for the integer types, the IEEE-754 bit pattern for the floats. *)
Definition decode_be (t : gotype) (bs : list byte) : Z :=
  match t with
  | Tint32 => to_signed 32 (be_uint bs)
  | Tint64 | Tint => to_signed 64 (be_uint bs)
  | Tuint64 | Tfloat32 | Tfloat64 => be_uint bs
  end.

(** [binary.Read(reader, binary.BigEndian, &v)] with [v] of type [t].  The
    size of the type is looked up first: for a type without one the call
    returns the error "binary.Read: invalid type" and reads nothing. *)
Definition binary_Read (t : gotype) : M Z :=
  match dataSize t with
  | None => fail (ErrBinaryInvalidType t)
  | Some n => bs <- ReadFull n ;; ret (decode_be t bs)
  end.

(** [m] with both continuations of [if err != nil]: [k] on a nil error,
    [h] on the error [m] returned. *)
Definition bind_err {A B} (m : M A) (k : A -> M B) (h : error -> M B) : M B :=
  fun st =>
    match m st with
    | (Ret a, st') => k a st'
    | (Fail e, st') => h e st'
    | (Panic p, st') => (Panic p, st')
    | (OutOfFuel, st') => (OutOfFuel, st')
    end.

(** ** The data model *)

(** The dynamic types [readArguments] appends to a message. *)
Inductive Argument : Type :=
| ArgInt32 (i : Z)
| ArgInt64 (i : Z)
| ArgFloat32 (bits : Z)
| ArgFloat64 (bits : Z)
| ArgString (s : string)
| ArgBlob (buf : list byte)
| ArgTimetag (timeTag : Z)
| ArgBool (b : bool).

Record Message : Type := mkMessage {
  address : string;
  Arguments : list Argument
}.

(** A [Packet] interface value holds nothing, a [*Message] or a [*Bundle]. *)
Inductive Packet : Type :=
| NilPacket
| MessagePacket (msg : Message)
| BundlePacket (bundle : Bundle)
with Bundle : Type :=
| mkBundle (Timetag : Z) (Elements : list Packet).


(** Modelled from the spec: [Message.Append], which is not in [server.go];
    the argument list is append-only and keeps the wire order. *)
Definition Message_Append (msg : Message) (a : Argument) : Message :=
  mkMessage (address msg) (Arguments msg ++ [a]).

(** Modelled from the spec: [NewBundle] and [timetagToTime], which are not
    in [server.go]; a bundle carries the 64-bit wire value of its timetag
    and an ordered sequence of packets, empty at first. *)
Definition NewBundle (timeTag : Z) : Bundle := mkBundle timeTag [].

(** Modelled from the spec: [Bundle.Append], which is not in [server.go];
    the decoded packet is appended to the elements. *)
Definition Bundle_Append (bundle : Bundle) (p : Packet) : Bundle :=
  match bundle with
  | mkBundle timeTag elems => mkBundle timeTag (elems ++ [p])
  end.

(** Modelled from the spec: the constant [BundleTag], which is not in
    [server.go]. *)
Definition BundleTag : string := "#bundle".

(** ** The primitive codec *)

(** Modelled from the spec: [padBytesNeeded], which is not in [server.go]:
    [padBytesNeeded(n) = (4 - n % 4) % 4], with Go's remainder. *)
Definition padBytesNeeded (elementLen : Z) : Z :=
  Z.rem (4 - Z.rem elementLen 4) 4.

(** Index of the first [0x00] of a byte sequence. *)
Fixpoint index_nul (bs : list byte) : option nat :=
  match bs with
  | [] => None
  | b :: bs' =>
    if Byte.eqb b x00 then Some O
    else option_map S (index_nul bs')
  end.

(** Modelled from the spec: [readPaddedString], which is not in
    [server.go].  It reads up to the first [0x00], then skips forward to the
    next 4-byte boundary; it returns the bytes before the terminator and the
    number of bytes consumed, terminator and padding included, and fails
    with TruncatedInput when the bytes that are left do not hold all of
    that. *)
Definition readPaddedString : M (string * Z) :=
  fun st =>
    let r := reader st in
    match index_nul r with
    | None => (Fail ErrTruncatedInput, mkDecState [] (start st))
    | Some k =>
      let n := (k + 1 + Z.to_nat (padBytesNeeded (Z.of_nat k + 1)))%nat in
      if (n <=? length r)%nat
      then (Ret (string_of_list_byte (take k r), Z.of_nat n),
            mkDecState (drop n r) (start st))
      else (Fail ErrTruncatedInput, mkDecState [] (start st))
    end.

(** [len(s)] of a Go string. *)
Definition len (s : string) : Z := Z.of_nat (String.length s).

(** [readBlob] (server.go:367-392). *)
Definition readBlob : M (list byte * Z) :=
  (* var blobLen int; binary.Read(reader, binary.BigEndian, &blobLen) *)
  blobLen <- binary_Read Tint ;;
  let n := 4 + blobLen in
  (* blob = make([]byte, blobLen) *)
  if blobLen <? 0 then raise MakesliceLenOutOfRange else
  (* reader.Read(blob): what a short read leaves untouched stays zero *)
  got <- Read (Z.to_nat blobLen) ;;
  let blob := got ++ repeat x00 (Z.to_nat blobLen - length got) in
  let numPadBytes := padBytesNeeded blobLen in
  if 0 <? numPadBytes then
    (* n += numPadBytes; reader.Read(dummy) *)
    Read (Z.to_nat numPadBytes) ;;
    ret (blob, n + numPadBytes)
  else
    ret (blob, n).

(** ** Messages *)

(** The loop [for _, c := range typetags] of [readArguments]
    (server.go:282-360).  Every tag of the switch is a one-byte character
    and any other character leaves through [default], so that running over
    the bytes of the string visits the same cases as running over its
    characters; the error of [default] carries the byte that starts the
    offending character. *)
Fixpoint readArguments_loop (typetags : string) (msg : Message) : M Message :=
  match typetags with
  | EmptyString => ret msg
  | String c typetags' =>
    if (c =? "i")%char then
      i <- binary_Read Tint32 ;;
      add_start 4 ;;
      readArguments_loop typetags' (Message_Append msg (ArgInt32 i))
    else if (c =? "h")%char then
      i <- binary_Read Tint64 ;;
      add_start 8 ;;
      readArguments_loop typetags' (Message_Append msg (ArgInt64 i))
    else if (c =? "f")%char then
      f <- binary_Read Tfloat32 ;;
      add_start 4 ;;
      readArguments_loop typetags' (Message_Append msg (ArgFloat32 f))
    else if (c =? "d")%char then
      d <- binary_Read Tfloat64 ;;
      add_start 8 ;;
      readArguments_loop typetags' (Message_Append msg (ArgFloat64 d))
    else if (c =? "s")%char then
      (* s, _, err = readPaddedString(reader) *)
      p <- readPaddedString ;;
      let s := fst p in
      add_start (len s + padBytesNeeded (len s)) ;;
      readArguments_loop typetags' (Message_Append msg (ArgString s))
    else if (c =? "b")%char then
      p <- readBlob ;;
      add_start (snd p) ;;
      readArguments_loop typetags' (Message_Append msg (ArgBlob (fst p)))
    else if (c =? "t")%char then
      bind_err (binary_Read Tuint64)
        (fun timeTag =>
           add_start 8 ;;
           readArguments_loop typetags' (Message_Append msg (ArgTimetag timeTag)))
        (fun _ => ret msg)                       (* return nil *)
    else if (c =? "T")%char then
      readArguments_loop typetags' (Message_Append msg (ArgBool true))
    else if (c =? "F")%char then
      readArguments_loop typetags' (Message_Append msg (ArgBool false))
    else
      fail (ErrUnsupportedTypeTag c)
  end.

(** [readArguments] (server.go:265-363): the message with the arguments
    appended when the Go function returns a nil error. *)
Definition readArguments (msg : Message) : M Message :=
  p <- readPaddedString ;;
  add_start (snd p) ;;
  match fst p with
  | EmptyString => raise IndexOutOfRange         (* typetags[0] *)
  | String c typetags =>
    if negb (c =? ",")%char then fail ErrInvalidTypeTag
    else readArguments_loop typetags msg         (* typetags[1:] *)
  end.

(** [readMessage] (server.go:244-262). *)
Definition readMessage : M Message :=
  p <- readPaddedString ;;
  add_start (snd p) ;;
  let msg := mkMessage (fst p) [] in
  readArguments msg.

(** ** Bundles and packets *)

(** [readBundle] (server.go:198-241) up to its loop, which is [loop]. *)
Definition readBundle_with (loop : Bundle -> M Bundle) : M Bundle :=
  p <- readPaddedString ;;
  add_start (snd p) ;;
  let startTag := fst p in
  if negb (String.eqb startTag BundleTag)
  then fail (ErrInvalidBundleTag startTag)
  else
    timeTag <- binary_Read Tuint64 ;;
    add_start 8 ;;
    loop (NewBundle timeTag).

(** [readPacket] (server.go:174-195) and the loop [for *start < end] of
    [readBundle] (server.go:223-238) call each other; [fuel] bounds the
    depth of these calls. *)
Fixpoint readPacket_rec (fuel : nat) (end_ : Z) {struct fuel} : M Packet :=
  match fuel with
  | O => out_of_fuel
  | S fuel' =>
    b <- Peek1 ;;
    if Byte.eqb b "/" then
      msg <- readMessage ;;
      ret (MessagePacket msg)
    else if Byte.eqb b "#" then
      bundle <- readBundle_with (readBundle_loop fuel' end_) ;;
      ret (BundlePacket bundle)
    else
      ret NilPacket
  end
with readBundle_loop (fuel : nat) (end_ : Z) (bundle : Bundle)
       {struct fuel} : M Bundle :=
  fun st =>
    if start st <? end_ then
      match fuel with
      | O => (OutOfFuel, st)
      | S fuel' =>
        (* err = binary.Read(&length); *start += 4; if err != nil ... *)
        bind_err (binary_Read Tint32)
          (fun _ =>
             add_start 4 ;;
             packet <- readPacket_rec fuel' end_ ;;
             readBundle_loop fuel' end_ (Bundle_Append bundle packet))
          (fun err => add_start 4 ;; fail err)
          st
      end
    else (Ret bundle, st).

(** [readBundle] with room for [fuel] nested calls. *)
Definition readBundle_rec (fuel : nat) (end_ : Z) : M Bundle :=
  readBundle_with (readBundle_loop fuel end_).

(** Every call of the two functions consumes input before it calls again,
    so that the number of unread bytes bounds the depth. *)
Definition readPacket (end_ : Z) : M Packet :=
  fun st => readPacket_rec (S (length (reader st))) end_ st.

Definition readBundle (end_ : Z) : M Bundle :=
  fun st => readBundle_rec (S (length (reader st))) end_ st.

(** The loop of [readBundle], entered with the unread bytes as the bound. *)
Definition readBundle_for (end_ : Z) (bundle : Bundle) : M Bundle :=
  fun st => readBundle_loop (S (length (reader st))) end_ bundle st.

(** ** The server *)

(** What one call of [conn.ReadFromUDP] delivers. *)
Inductive udp_read : Type :=
| Datagram (payload : list byte)
| ReadError (e : error).

(** [n, _, err = self.conn.ReadFromUDP(data)]: the payload is copied to the
    front of [data], cut to its size; a failed read copies nothing and
    counts no byte. *)
Definition ReadFromUDP (rd : udp_read) (data : list byte)
  : Z * list byte * option error :=
  match rd with
  | Datagram payload =>
    let n := Nat.min (length payload) (length data) in
    (Z.of_nat n, take n payload ++ drop n data, None)
  | ReadError e => (0, data, Some e)
  end.

(** The connection object; [nil] before [connect]. *)
Inductive UDPConn : Type := udpConn.

Section Server.
(** [HandlerFunc], a [func(msg *Message)]: the registry only stores it. *)
Context {HandlerFunc : Type}.

(** Modelled from the spec: the type [OscDispatcher], which is not in
    [server.go]; its registry maps a registration address to one
    handler. *)
Record OscDispatcher : Type := mkOscDispatcher {
  handlers : gmap string HandlerFunc
}.

Definition NewOscDispatcher : OscDispatcher := mkOscDispatcher ∅.

Record Server : Type := mkServer {
  Address : string;
  readTimeout : Z;
  dispatcher : option OscDispatcher;   (* a pointer: nil is [None] *)
  running : bool;
  conn : option UDPConn                (* a pointer: nil is [None] *)
}.

(** [NewServer] (server.go:34-41). *)
Definition NewServer (addr : string) : Server :=
  mkServer addr 0 (Some NewOscDispatcher) false None.

(** The wildcard characters of OSC address patterns, and with the space
    the characters a registration address may not hold. *)
Definition wildcards : list ascii := ["*"; "?"; "["; "]"; "{"; "}"]%char.
Definition reserved : list ascii := wildcards ++ [" "%char].

Definition contains_any (chars : list ascii) (s : string) : bool :=
  existsb (fun c => existsb (Ascii.eqb c) chars) (list_ascii_of_string s).

Definition starts_with_slash (s : string) : bool :=
  match s with
  | String c _ => (c =? "/")%char
  | EmptyString => false
  end.

(** Modelled from the spec: [validateRegistration], which is not in
    [server.go]; it fails if the address contains any of [*?[]{}] or a
    space, or does not start with [/]. *)
Definition validateRegistration (address : string) : outcome unit :=
  if contains_any reserved address then Fail ErrInvalidAddress
  else if negb (starts_with_slash address) then Fail ErrInvalidAddress
  else Ret tt.

(** Modelled from the spec: [OscDispatcher.AddMsgHandler], which is not
    in [server.go]; it calls [validateRegistration] and on success
    inserts or overwrites the binding. *)
Definition OscDispatcher_AddMsgHandler (d : OscDispatcher)
    (address : string) (handler : HandlerFunc) : outcome OscDispatcher :=
  match validateRegistration address with
  | Ret _ => Ret (mkOscDispatcher (<[address := handler]> (handlers d)))
  | Fail e => Fail e
  | Panic p => Panic p
  | OutOfFuel => OutOfFuel
  end.

(** [Server.AddMsgHandler] (server.go:73-75): the server with the
    dispatcher the call leaves behind. *)
Definition AddMsgHandler (self : Server) (address : string)
    (handler : HandlerFunc) : outcome Server :=
  match dispatcher self with
  | None => Panic NilPointerDereference
  | Some d =>
    match OscDispatcher_AddMsgHandler d address handler with
    | Ret d' =>
      Ret (mkServer (Address self) (readTimeout self) (Some d')
                    (running self) (conn self))
    | Fail e => Fail e
    | Panic p => Panic p
    | OutOfFuel => OutOfFuel
    end
  end.

(** [readFromConnection] (server.go:161-171).  [rd] is what the call of
    [ReadFromUDP] delivers. *)
Definition readFromConnection (self : Server) (rd : udp_read)
  : outcome Packet :=
  match conn self with
  | None => Fail ErrConnNil
  | Some _ =>
    let data := repeat x00 (Z.to_nat 65535) in
    (* n, _, err = self.conn.ReadFromUDP(data) *)
    let '(n, data, _) := ReadFromUDP rd data in
    (* packet, err = self.readPacket(bufio.NewReader(...data), &start, n) *)
    match fst (readPacket n (mkDecState data 0)) with
    | Ret packet => Ret packet                 (* return packet, nil *)
    | Fail _ => Ret NilPacket                  (* return packet, nil *)
    | Panic p => Panic p
    | OutOfFuel => OutOfFuel
    end
  end.

(** How the loop of [ListenAndDispatch] ends. *)
Inductive loop_end : Type :=
| Returned (err : option error)   (* the function returns [err] *)
| Panicked (p : panic)
| Waiting                         (* blocked in [ReadFromUDP] *)
| Diverged.

(** The loop [for self.running] of [ListenAndDispatch]
    (server.go:101-109) over the reads the connection delivers: the
    packets handed to [self.dispatcher.Dispatch], in order, and the way
    the loop ends. *)
Fixpoint ListenAndDispatch_loop (self : Server) (incoming : list udp_read)
  : list Packet * loop_end :=
  if running self then
    match incoming with
    | [] => ([], Waiting)
    | rd :: incoming' =>
      match readFromConnection self rd with
      | Fail err => ([], Returned (Some err))
      | Panic p => ([], Panicked p)
      | OutOfFuel => ([], Diverged)
      | Ret msg =>
        let '(dispatched, e) := ListenAndDispatch_loop self incoming' in
        (msg :: dispatched, e)
      end
    end
  else ([], Returned None).

(** [ListenAndDispatch] (server.go:78-110).  [connect_err] and
    [deadline_err] are what [connect] and [SetReadDeadline] return; the
    send on the channel [Listening] is taken to find its receiver. *)
Definition ListenAndDispatch (self : Server)
    (connect_err deadline_err : option error) (incoming : list udp_read)
  : list Packet * loop_end :=
  if running self then ([], Returned (Some ErrAlreadyRunning))
  else match dispatcher self with
  | None => ([], Returned (Some ErrNoDispatcher))
  | Some _ =>
    match connect_err with
    | Some err => ([], Returned (Some err))
    | None =>
      let self := mkServer (Address self) (readTimeout self)
                           (dispatcher self) (running self) (Some udpConn) in
      match (if readTimeout self =? 0 then None else deadline_err) with
      | Some err => ([], Returned (Some err))
      | None =>
        (* self.running = true *)
        let self := mkServer (Address self) (readTimeout self)
                             (dispatcher self) true (conn self) in
        ListenAndDispatch_loop self incoming
      end
    end
  end.
End Server.
Arguments OscDispatcher : clear implicits.
Arguments Server : clear implicits.

(** ** Datagrams and servers used in the examples *)

(** A server as [ListenAndDispatch] has it when its loop runs: connected
    and running, with the dispatcher of [NewServer]. *)
Definition listening : Server unit :=
  mkServer "localhost:6677" 0 (Some NewOscDispatcher) true (Some udpConn).

(** The bytes of a Go string. *)
Definition bytes (s : string) : list byte := list_byte_of_string s.

(** ["/a"], [",b"] and a blob that declares 8 bytes and brings 2. *)
Definition dgram_blob_truncated : list byte :=
  bytes "/a" ++ [x00; x00] ++ bytes ",b" ++ [x00; x00] ++
  [x00; x00; x00; x08] ++ bytes "ab".

(** ["/a"], [",b"] and the blob ["abcd"], complete. *)
Definition dgram_blob : list byte :=
  bytes "/a" ++ [x00; x00] ++ bytes ",b" ++ [x00; x00] ++
  [x00; x00; x00; x04] ++ bytes "abcd".

(** ["/a"] alone: a message without a type-tag string. *)
Definition dgram_no_typetags : list byte := bytes "/a" ++ [x00; x00].

(** ["/a"], [",s"] and the string ["abcd"] with its terminator and padding. *)
Definition dgram_string4 : list byte :=
  bytes "/a" ++ [x00; x00] ++ bytes ",s" ++ [x00; x00] ++
  bytes "abcd" ++ [x00; x00; x00; x00].

(** A bundle of 36 bytes, with the timetag 1, whose one element is the
    message of [dgram_string4]. *)
Definition dgram_bundle_string4 : list byte :=
  bytes "#bundle" ++ [x00] ++ [x00; x00; x00; x00; x00; x00; x00; x01] ++
  [x00; x00; x00; x10] ++ dgram_string4.

(** ["/a"], [",s"] and the string ["abc"] with its terminator. *)
Definition dgram_string3 : list byte :=
  bytes "/a" ++ [x00; x00] ++ bytes ",s" ++ [x00; x00] ++
  bytes "abc" ++ [x00].

(** ["/a"], [",it"], the int32 7 and three bytes where a timetag needs 8. *)
Definition dgram_timetag_short : list byte :=
  bytes "/a" ++ [x00; x00] ++ bytes ",it" ++ [x00] ++
  [x00; x00; x00; x07] ++ [x01; x02; x03].

(** ["/address/test"], [",i"] and the int32 1122: the message of
    [TestServerMessageDispatching]. *)
Definition dgram_test : list byte :=
  bytes "/address/test" ++ [x00; x00; x00] ++ bytes ",i" ++ [x00; x00] ++
  [x00; x00; x04; x62].


(** A datagram as [readFromConnection] hands it to [readPacket]: at the
    front of a zeroed buffer of 65535 bytes. *)
Definition in_buffer (payload : list byte) : DecState :=
  mkDecState (ReadFromUDP (Datagram payload) (repeat x00 (Z.to_nat 65535))).1.2 0.

(** ** Notions used in the statements *)

(** [m], run from [st], does not run out of fuel and leaves no more unread
    bytes than it found. *)
Definition shrinks {A} (m : M A) (st : DecState) : Prop :=
  fst (m st) <> OutOfFuel /\
  (length (reader (snd (m st))) <= length (reader st))%nat.

(** The tags of the fixed-width arguments: the type [binary.Read] fills,
    the bytes added to [*start], and the argument appended. *)
Definition fixed_width_tag (c : ascii)
  : option (gotype * Z * (Z -> Argument)) :=
  if (c =? "i")%char then Some (Tint32, 4, ArgInt32)
  else if (c =? "h")%char then Some (Tint64, 8, ArgInt64)
  else if (c =? "f")%char then Some (Tfloat32, 4, ArgFloat32)
  else if (c =? "d")%char then Some (Tfloat64, 8, ArgFloat64)
  else if (c =? "t")%char then Some (Tuint64, 8, ArgTimetag)
  else None.

(** ** The rest of the server's life cycle *)

Section Lifecycle.
Context {HandlerFunc : Type}.
Implicit Types self : Server HandlerFunc.

(** [Close] (server.go:64-69).  [close_err] is what [conn.Close] returns. *)
Definition Close self (close_err : option error) : option error :=
  match conn self with
  | None => None
  | Some _ => close_err
  end.

(** [Listen] (server.go:113-133) from the check of [self.running] on. *)
Definition Listen_connected self : option error * Server HandlerFunc :=
  if running self then (Some ErrAlreadyRunning, self)
  else
    (* the error of SetReadDeadline is dropped; self.running = true *)
    (None, mkServer (Address self) (readTimeout self) (dispatcher self)
                    true (conn self)).

(** [Listen] (server.go:113-133): the error it returns and the server it
    leaves behind.  [connect_err] is what [connect] returns if it is
    called; the send on the channel [Listening] is taken to find its
    receiver. *)
Definition Listen self (connect_err : option error)
  : option error * Server HandlerFunc :=
  match conn self with
  | None =>
    match connect_err with
    | Some err => (Some err, self)
    | None =>
      Listen_connected
        (mkServer (Address self) (readTimeout self) (dispatcher self)
                  (running self) (Some udpConn))
    end
  | Some _ => Listen_connected self
  end.
End Lifecycle.

(** ** The wire layout of well-formed input *)

(** The packets a bundle holds. *)
Definition Bundle_Elements (bundle : Bundle) : list Packet :=
  match bundle with
  | mkBundle _ elems => elems
  end.

(** The byte of a value below 256. *)
Definition byte_of_Z (z : Z) : byte :=
  match Byte.of_N (Z.to_N z) with
  | Some b => b
  | None => x00
  end.

(** The [n] bytes, most significant first, that [binary.BigEndian] reads
    back as [v]; a negative [v] is laid out in two's complement. *)
Fixpoint be_bytes (n : nat) (v : Z) : list byte :=
  match n with
  | O => []
  | S n' => be_bytes n' (v / 256) ++ [byte_of_Z (v mod 256)]
  end.

(** A string on the wire: its bytes, the terminator, and zeros up to the
    next multiple of 4. *)
Definition osc_string (s : string) : list byte :=
  list_byte_of_string s ++
  x00 :: repeat x00 (Z.to_nat (padBytesNeeded (len s + 1))).

Definition no_nul (s : string) : bool :=
  forallb (fun b => negb (Byte.eqb b x00)) (list_byte_of_string s).

(** The tag under which [readArguments] appends an argument. *)
Definition tag_of (a : Argument) : ascii :=
  match a with
  | ArgInt32 _ => "i"
  | ArgInt64 _ => "h"
  | ArgFloat32 _ => "f"
  | ArgFloat64 _ => "d"
  | ArgString _ => "s"
  | ArgBlob _ => "b"
  | ArgTimetag _ => "t"
  | ArgBool true => "T"
  | ArgBool false => "F"
  end.

(** The values a Go variable of the type of the argument can hold; a string
    as it comes off the wire holds no terminator.  No blob is among them:
    [readBlob] returns none. *)
Definition decodable_arg (a : Argument) : bool :=
  match a with
  | ArgInt32 i => (- 2 ^ 31 <=? i) && (i <? 2 ^ 31)
  | ArgInt64 i => (- 2 ^ 63 <=? i) && (i <? 2 ^ 63)
  | ArgFloat32 bits => (0 <=? bits) && (bits <? 2 ^ 32)
  | ArgFloat64 bits => (0 <=? bits) && (bits <? 2 ^ 64)
  | ArgString s => no_nul s
  | ArgBlob _ => false
  | ArgTimetag t => (0 <=? t) && (t <? 2 ^ 64)
  | ArgBool _ => true
  end.

(** The bytes of an argument on the wire. *)
Definition encode_arg (a : Argument) : list byte :=
  match a with
  | ArgInt32 i => be_bytes 4 i
  | ArgInt64 i => be_bytes 8 i
  | ArgFloat32 bits => be_bytes 4 bits
  | ArgFloat64 bits => be_bytes 8 bits
  | ArgString s => osc_string s
  | ArgBlob buf =>
    be_bytes 4 (Z.of_nat (length buf)) ++ buf ++
    repeat x00 (Z.to_nat (padBytesNeeded (Z.of_nat (length buf))))
  | ArgTimetag t => be_bytes 8 t
  | ArgBool _ => []
  end.

(** The type-tag string of a list of arguments. *)
Definition typetags_of (args : list Argument) : string :=
  String "," (string_of_list_ascii (map tag_of args)).

(** A message on the wire: address, type tags, arguments. *)
Definition encode_message (m : Message) : list byte :=
  osc_string (address m) ++ osc_string (typetags_of (Arguments m)) ++
  concat (map encode_arg (Arguments m)).

(** The string arguments whose length is a multiple of 4. *)
Definition short_string (a : Argument) : bool :=
  match a with
  | ArgString s => len s mod 4 =? 0
  | _ => false
  end.

Definition short_strings (args : list Argument) : Z :=
  Z.of_nat (length (List.filter short_string args)).

(** The elements of a bundle on the wire: each message behind 4 bytes that
    declare a size, here any number. *)
Definition encode_elements (elems : list (Z * Message)) : list byte :=
  concat (map (fun e => be_bytes 4 (fst e) ++ encode_message (snd e)) elems).

(** A bundle of messages on the wire. *)
Definition encode_bundle (timeTag : Z) (elems : list (Z * Message))
  : list byte :=
  osc_string BundleTag ++ be_bytes 8 timeTag ++ encode_elements elems.

(** A message [readPacket] can return in full: its address starts with
    ['/'] and holds no zero byte, and its arguments are decodable. *)
Definition decodable_message (m : Message) : bool :=
  no_nul (address m) && starts_with_slash (address m) &&
  forallb decodable_arg (Arguments m).

(** The messages for which [*start] advances by the bytes consumed. *)
Definition exactly_counted (m : Message) : bool :=
  short_strings (Arguments m) =? 0.

(** A packet whose values all fit their Go types, all the way down. *)
Fixpoint well_formed_packet (p : Packet) : bool :=
  match p with
  | NilPacket => true
  | MessagePacket m =>
    no_nul (address m) && forallb decodable_arg (Arguments m)
  | BundlePacket (mkBundle timeTag elems) =>
    (0 <=? timeTag) && (timeTag <? 2 ^ 64) &&
    forallb well_formed_packet elems
  end.

(** [m], run from [st], leaves the count [*start] at least where it was. *)
Definition advances {A} (m : M A) (st : DecState) : Prop :=
  start st <= start (snd (m st)).

(** * Properties *)

(** ** Decoding consumes its input and always comes to an end *)

Lemma shrinks_ret {A} (a : A) st : shrinks (ret a) st.
Proof. split; simpl; [discriminate | lia]. Qed.

Lemma shrinks_fail {A} e st : shrinks (@fail A e) st.
Proof. split; simpl; [discriminate | lia]. Qed.

Lemma shrinks_raise {A} p st : shrinks (@raise A p) st.
Proof. split; simpl; [discriminate | lia]. Qed.

Lemma shrinks_add_start n st : shrinks (add_start n) st.
Proof. split; simpl; [discriminate | lia]. Qed.

Lemma shrinks_bind_err {A B} (m : M A) (k : A -> M B) (h : error -> M B) st :
  shrinks m st ->
  (forall a st', m st = (Ret a, st') -> shrinks (k a) st') ->
  (forall e st', m st = (Fail e, st') -> shrinks (h e) st') ->
  shrinks (bind_err m k h) st.
Proof.
  unfold shrinks, bind_err. intros [Hf Hl] Hk Hh.
  destruct (m st) as [[a | e | p | ] st'] eqn:E; simpl in *.
  - destruct (Hk a st' eq_refl) as [? ?]. split; [assumption | lia].
  - destruct (Hh e st' eq_refl) as [? ?]. split; [assumption | lia].
  - split; [discriminate | assumption].
  - congruence.
Qed.

Lemma shrinks_bind {A B} (m : M A) (k : A -> M B) st :
  shrinks m st ->
  (forall a st', m st = (Ret a, st') -> shrinks (k a) st') ->
  shrinks (bind m k) st.
Proof.
  unfold shrinks, bind. intros [Hf Hl] Hk.
  destruct (m st) as [[a | e | p | ] st'] eqn:E; simpl in *.
  - destruct (Hk a st' eq_refl) as [? ?]. split; [assumption | lia].
  - split; [discriminate | assumption].
  - split; [discriminate | assumption].
  - congruence.
Qed.

Lemma shrinks_Peek1 st : shrinks Peek1 st.
Proof.
  unfold shrinks, Peek1.
  destruct (reader st) eqn:E; simpl; rewrite E; split;
    (discriminate || (simpl; lia)).
Qed.

Lemma shrinks_ReadFull n st : shrinks (ReadFull n) st.
Proof.
  unfold shrinks, ReadFull.
  destruct (n <=? length (reader st))%nat; simpl; split;
    try discriminate; [rewrite length_drop |]; lia.
Qed.

Lemma shrinks_Read n st : shrinks (Read n) st.
Proof.
  unfold shrinks, Read.
  destruct n, (reader st) eqn:E; simpl; rewrite ?E; split;
    try discriminate; try (simpl; lia).
  rewrite length_drop. simpl. lia.
Qed.

Lemma shrinks_binary_Read t st : shrinks (binary_Read t) st.
Proof.
  unfold binary_Read. destruct (dataSize t).
  - apply shrinks_bind; [apply shrinks_ReadFull | intros; apply shrinks_ret].
  - apply shrinks_fail.
Qed.

Lemma shrinks_readPaddedString st : shrinks readPaddedString st.
Proof.
  unfold shrinks, readPaddedString.
  destruct (index_nul (reader st)); simpl.
  - match goal with |- context [(?a <=? ?b)%nat] => destruct (a <=? b)%nat end;
      simpl; split; try discriminate; [rewrite length_drop |]; lia.
  - split; [discriminate | lia].
Qed.

(** A string that was read took at least its terminator off the input. *)
Lemma readPaddedString_consumes st p st' :
  readPaddedString st = (Ret p, st') ->
  (length (reader st') < length (reader st))%nat.
Proof.
  unfold readPaddedString.
  destruct (index_nul (reader st)) as [k |]; [| discriminate].
  match goal with |- context [(?a <=? ?b)%nat] =>
    destruct (Nat.leb_spec a b) end; [| discriminate].
  intros [= _ <-]. simpl. rewrite length_drop. lia.
Qed.

(** A fixed-size value that was read took its size off the input. *)
Lemma binary_Read_consumes t v st st' :
  binary_Read t st = (Ret v, st') ->
  exists n, dataSize t = Some n /\
            (length (reader st') + n = length (reader st))%nat.
Proof.
  unfold binary_Read. destruct (dataSize t) as [n |]; [| discriminate].
  unfold bind, ReadFull, ret.
  destruct (Nat.leb_spec n (length (reader st))); [| discriminate].
  intros [= _ <-]. exists n. split; [reflexivity |].
  simpl. rewrite length_drop. lia.
Qed.

Create HintDb shrink.
#[local] Hint Resolve shrinks_ret shrinks_fail shrinks_raise shrinks_add_start
  shrinks_Peek1 shrinks_ReadFull shrinks_Read shrinks_binary_Read
  shrinks_readPaddedString : shrink.

(** Splits a sequence of reads into its steps. *)
Ltac shrink_step :=
  repeat first
    [ solve [auto with shrink]
    | apply shrinks_bind; [solve [auto with shrink] | intros ? ? ?]
    | apply shrinks_bind_err;
        [solve [auto with shrink] | intros ? ? ? | intros ? ? ?] ].

Lemma shrinks_readBlob st : shrinks readBlob st.
Proof.
  unfold readBlob. shrink_step.
  destruct (_ <? 0); [auto with shrink |]. shrink_step.
  destruct (0 <? _); shrink_step.
Qed.
#[local] Hint Resolve shrinks_readBlob : shrink.

Lemma shrinks_readArguments_loop typetags :
  forall msg st, shrinks (readArguments_loop typetags msg) st.
Proof.
  induction typetags as [| c typetags IH]; intros msg st; simpl.
  - auto with shrink.
  - repeat match goal with
           | |- shrinks (if ?b then _ else _) _ => destruct b
           end; shrink_step; auto.
Qed.
#[local] Hint Resolve shrinks_readArguments_loop : shrink.

Lemma shrinks_readArguments msg st : shrinks (readArguments msg) st.
Proof.
  unfold readArguments. shrink_step.
  destruct (fst _) as [| c typetags]; [auto with shrink |].
  destruct (negb _); auto with shrink.
Qed.
#[local] Hint Resolve shrinks_readArguments : shrink.

Lemma shrinks_readMessage st : shrinks readMessage st.
Proof. unfold readMessage. shrink_step. Qed.
#[local] Hint Resolve shrinks_readMessage : shrink.

Lemma run_le {A} (m : M A) st r st' :
  shrinks m st -> m st = (r, st') ->
  (length (reader st') <= length (reader st))%nat.
Proof. intros [_ H] E. rewrite E in H. exact H. Qed.

Lemma Peek1_state st r st' : Peek1 st = (r, st') -> st' = st.
Proof. unfold Peek1. destruct (reader st); intros [= _ <-]; reflexivity. Qed.

Lemma add_start_reader n st r st' :
  add_start n st = (r, st') -> reader st' = reader st.
Proof. intros [= _ <-]. reflexivity. Qed.

(** The part of [readBundle] before its loop takes at least one byte. *)
Lemma shrinks_readBundle_with loop st :
  (forall bundle st',
      (length (reader st') < length (reader st))%nat ->
      shrinks (loop bundle) st') ->
  shrinks (readBundle_with loop) st.
Proof.
  intros Hloop. unfold readBundle_with.
  apply shrinks_bind; [auto with shrink | intros p st1 H1].
  apply shrinks_bind; [auto with shrink | intros [] st2 H2].
  destruct (negb _); [auto with shrink |].
  apply shrinks_bind; [auto with shrink | intros timeTag st3 H3].
  apply shrinks_bind; [auto with shrink | intros [] st4 H4].
  apply Hloop.
  apply readPaddedString_consumes in H1.
  apply add_start_reader in H2, H4.
  apply (run_le _ _ _ _ (shrinks_binary_Read _ _)) in H3.
  rewrite H4. rewrite H2 in H3. lia.
Qed.

(** With more fuel than unread bytes, neither [readPacket] nor the loop of
    [readBundle] runs out of it. *)
Lemma fuel_enough end_ fuel :
  (forall st, (length (reader st) < fuel)%nat ->
              shrinks (readPacket_rec fuel end_) st) /\
  (forall bundle st, (length (reader st) < fuel)%nat ->
                     shrinks (readBundle_loop fuel end_ bundle) st).
Proof.
  induction fuel as [| fuel [IHp IHl]]; [split; intros; lia |].
  split.
  - intros st Hlen. simpl.
    apply shrinks_bind; [auto with shrink | intros b st' Hb].
    apply Peek1_state in Hb. subst st'.
    destruct (Byte.eqb b "/"); [shrink_step |].
    destruct (Byte.eqb b "#"); [| auto with shrink].
    apply shrinks_bind; [| auto with shrink].
    apply shrinks_readBundle_with. intros bundle st' Hst'.
    apply IHl. lia.
  - intros bundle st Hlen. unfold shrinks. simpl.
    destruct (start st <? end_); [| simpl; split; [discriminate | lia]].
    apply shrinks_bind_err; [auto with shrink | | intros; shrink_step].
    intros v st1 H1.
    apply binary_Read_consumes in H1. destruct H1 as (n & [= <-] & H1).
    apply shrinks_bind; [auto with shrink | intros [] st2 H2].
    apply add_start_reader in H2. rewrite <- H2 in H1.
    assert (Hp : shrinks (readPacket_rec fuel end_) st2)
      by (apply IHp; lia).
    apply shrinks_bind; [exact Hp | intros packet st3 H3].
    apply (run_le _ _ _ _ Hp) in H3.
    apply IHl. lia.
Qed.

(** [readPacket] and [readBundle] always come to an end. *)
Lemma readPacket_total end_ st : shrinks (readPacket end_) st.
Proof. apply (fuel_enough end_ (S (length (reader st)))). lia. Qed.

Lemma readBundle_total end_ st : shrinks (readBundle end_) st.
Proof.
  unfold readBundle, readBundle_rec.
  apply shrinks_readBundle_with. intros bundle st' Hst'.
  apply fuel_enough. lia.
Qed.

(** ** The amount of fuel does not matter *)

Lemma bind_ext_at {A B} (m : M A) (k1 k2 : A -> M B) st :
  (forall a st', m st = (Ret a, st') -> k1 a st' = k2 a st') ->
  bind m k1 st = bind m k2 st.
Proof.
  intros H. unfold bind.
  destruct (m st) as [[a | e | p | ] st']; auto.
Qed.

Lemma bind_err_ext_at {A B} (m : M A) (k1 k2 : A -> M B) h st :
  (forall a st', m st = (Ret a, st') -> k1 a st' = k2 a st') ->
  bind_err m k1 h st = bind_err m k2 h st.
Proof.
  intros H. unfold bind_err.
  destruct (m st) as [[a | e | p | ] st']; auto.
Qed.

Lemma readBundle_with_ext loop1 loop2 st :
  (forall bundle st',
      (length (reader st') < length (reader st))%nat ->
      loop1 bundle st' = loop2 bundle st') ->
  readBundle_with loop1 st = readBundle_with loop2 st.
Proof.
  intros Hloop. unfold readBundle_with.
  apply bind_ext_at. intros p st1 H1.
  apply bind_ext_at. intros [] st2 H2.
  destruct (negb _); [reflexivity |].
  apply bind_ext_at. intros timeTag st3 H3.
  apply bind_ext_at. intros [] st4 H4.
  apply Hloop.
  apply readPaddedString_consumes in H1.
  apply add_start_reader in H2, H4.
  apply (run_le _ _ _ _ (shrinks_binary_Read _ _)) in H3.
  rewrite H4. rewrite H2 in H3. lia.
Qed.

Lemma fuel_irrelevant end_ f1 :
  (forall f2 st,
      (length (reader st) < f1)%nat -> (length (reader st) < f2)%nat ->
      readPacket_rec f1 end_ st = readPacket_rec f2 end_ st) /\
  (forall f2 bundle st,
      (length (reader st) < f1)%nat -> (length (reader st) < f2)%nat ->
      readBundle_loop f1 end_ bundle st = readBundle_loop f2 end_ bundle st).
Proof.
  induction f1 as [| f1 [IHp IHl]]; [split; intros; lia |].
  split.
  - intros [| f2] st H1 H2; [lia |]. simpl.
    apply bind_ext_at. intros b st' Hb.
    apply Peek1_state in Hb. subst st'.
    destruct (Byte.eqb b "/"); [reflexivity |].
    destruct (Byte.eqb b "#"); [| reflexivity].
    unfold bind.
    rewrite (readBundle_with_ext (readBundle_loop f1 end_)
                                 (readBundle_loop f2 end_) st);
      [reflexivity | intros; apply IHl; lia].
  - intros [| f2] bundle st H1 H2; [lia |]. simpl.
    destruct (start st <? end_); [| reflexivity].
    apply bind_err_ext_at. intros v st1 Hv.
    apply binary_Read_consumes in Hv. destruct Hv as (n & [= <-] & Hv).
    apply bind_ext_at. intros [] st2 Hs.
    apply add_start_reader in Hs. rewrite <- Hs in Hv.
    unfold bind. rewrite (IHp f2 st2) by lia.
    destruct (readPacket_rec f2 end_ st2) as [[packet | | | ] st3] eqn:Hp;
      try reflexivity.
    apply (run_le _ _ _ _ (proj1 (fuel_enough end_ f2) st2 ltac:(lia))) in Hp.
    apply IHl; lia.
Qed.

(** [readPacket] as the source has it: the calls inside are calls of
    [readBundle] and of [readPacket] themselves. *)
Lemma readPacket_unfold end_ st :
  readPacket end_ st =
  (b <- Peek1 ;;
   if Byte.eqb b "/" then
     msg <- readMessage ;;
     ret (MessagePacket msg)
   else if Byte.eqb b "#" then
     bundle <- readBundle end_ ;;
     ret (BundlePacket bundle)
   else
     ret NilPacket) st.
Proof.
  unfold readPacket. simpl.
  apply bind_ext_at. intros b st' Hb.
  apply Peek1_state in Hb. subst st'.
  destruct (Byte.eqb b "/"); [reflexivity |].
  destruct (Byte.eqb b "#"); [| reflexivity].
  unfold bind, readBundle, readBundle_rec.
  rewrite (readBundle_with_ext
             (readBundle_loop (length (reader st)) end_)
             (readBundle_loop (S (length (reader st))) end_) st);
    [reflexivity | intros; apply fuel_irrelevant; lia].
Qed.

(** [readBundle] and its loop as the source has them. *)
Lemma readBundle_unfold end_ st :
  readBundle end_ st = readBundle_with (readBundle_for end_) st.
Proof.
  unfold readBundle, readBundle_rec, readBundle_for.
  apply readBundle_with_ext. intros bundle st' Hst'.
  apply fuel_irrelevant; lia.
Qed.

Lemma readBundle_for_unfold end_ bundle st :
  readBundle_for end_ bundle st =
  if start st <? end_ then
    bind_err (binary_Read Tint32)
      (fun _ =>
         add_start 4 ;;
         packet <- readPacket end_ ;;
         readBundle_for end_ (Bundle_Append bundle packet))
      (fun err => add_start 4 ;; fail err)
      st
  else (Ret bundle, st).
Proof.
  unfold readBundle_for at 1. simpl.
  destruct (start st <? end_); [| reflexivity].
  apply bind_err_ext_at. intros v st1 Hv.
  apply binary_Read_consumes in Hv. destruct Hv as (n & [= <-] & Hv).
  apply bind_ext_at. intros [] st2 Hs.
  apply add_start_reader in Hs. rewrite <- Hs in Hv.
  unfold bind.
  rewrite (proj1 (fuel_irrelevant end_ (length (reader st)))
                 (S (length (reader st2))) st2) by lia.
  fold (readPacket end_ st2).
  destruct (readPacket end_ st2) as [[packet | | | ] st3] eqn:Hp;
    try reflexivity.
  apply (run_le _ _ _ _ (readPacket_total end_ st2)) in Hp.
  unfold readBundle_for. apply fuel_irrelevant; lia.
Qed.

(** ** The packet entry point *)




(** ** The type-tag string *)

(** C7 on the code.  An empty type-tag string does not begin with [','],
    and [readArguments] does not return [ErrInvalidTypeTag] for it: the
    index expression [typetags[0]] panics.  A string that is not empty and
    begins with another character does get [ErrInvalidTypeTag]. *)
Theorem readArguments_empty_typetags_panics :
  (forall msg rest s,
      readArguments msg (mkDecState (x00 :: x00 :: x00 :: x00 :: rest) s) =
      (Panic IndexOutOfRange, mkDecState rest (s + 4))) /\
  fst (readArguments (mkMessage "/a" [])
         (mkDecState (bytes "i" ++ [x00; x00; x00]) 4)) =
    Fail ErrInvalidTypeTag.
Proof.
  split; [reflexivity | vm_compute; reflexivity].
Qed.

(** ** The argument loop *)

Lemma Arguments_Message_Append msg a :
  length (Arguments (Message_Append msg a)) = S (length (Arguments msg)).
Proof. simpl. rewrite length_app. simpl. lia. Qed.

(** A run of the loop over [pre] that appended one argument for every tag
    went through all of [pre]; the loop over a longer tag string goes on
    from where that run ended. *)
Lemma readArguments_loop_app pre :
  forall msg st msg1 st1 rest,
    readArguments_loop pre msg st = (Ret msg1, st1) ->
    length (Arguments msg1) = (length (Arguments msg) + String.length pre)%nat ->
    readArguments_loop (String.append pre rest) msg st =
    readArguments_loop rest msg1 st1.
Proof.
  induction pre as [| c pre IH]; intros msg st msg1 st1 rest Hrun Hlen.
  - simpl in *. injection Hrun as <- <-. reflexivity.
  - simpl in Hrun, Hlen |- *.
    repeat match type of Hrun with
           | (if ?b then _ else _) _ = _ => destruct b
           end;
      try discriminate;
      unfold bind, bind_err in Hrun |- *;
      repeat match type of Hrun with
             | match ?m ?s with _ => _ end = _ =>
               destruct (m s) as [[? | ? | ? | ] ?] eqn:?;
                 try discriminate; simpl in Hrun |- *
             end;
      try (apply IH; [exact Hrun | rewrite Arguments_Message_Append; lia]).
    injection Hrun as <- <-. lia.
Qed.

(** The step of the loop on the tag of a fixed-width argument whose bytes
    are there: one argument of the kind of the tag is appended. *)
Lemma readArguments_loop_fixed_step c t size mk typetags msg st v st' :
  fixed_width_tag c = Some (t, size, mk) ->
  binary_Read t st = (Ret v, st') ->
  readArguments_loop (String c typetags) msg st =
  readArguments_loop typetags (Message_Append msg (mk v))
    (mkDecState (reader st') (start st' + size)).
Proof.
  unfold fixed_width_tag. intros Htag Hread.
  repeat match type of Htag with
         | (if (c =? ?x)%char then _ else _) = _ =>
           destruct (Ascii.eqb_spec c x) as [-> | _];
             [injection Htag as <- <- <-;
              cbn [readArguments_loop Ascii.eqb Bool.eqb];
              unfold bind, bind_err; rewrite Hread; reflexivity |]
         end.
  discriminate.
Qed.

(** The step of the loop on ['T'] and ['F']: a boolean is appended and no
    byte is read. *)
Lemma readArguments_loop_bool_step (b : bool) typetags msg st :
  readArguments_loop (String (if b then "T" else "F")%char typetags) msg st =
  readArguments_loop typetags (Message_Append msg (ArgBool b)) st.
Proof. destruct b; reflexivity. Qed.

(** The step of the loop on a character that is no tag. *)
Lemma readArguments_loop_unsupported c typetags msg st :
  existsb (Ascii.eqb c) (list_ascii_of_string "ihfdsbtTF") = false ->
  readArguments_loop (String c typetags) msg st =
  (Fail (ErrUnsupportedTypeTag c), st).
Proof.
  cbn [existsb list_ascii_of_string]. intros H.
  repeat (apply orb_false_elim in H; destruct H as [? H]).
  cbn [readArguments_loop].
  repeat match goal with
         | E : (c =? ?x)%char = false |- _ => rewrite E; clear E
         end.
  reflexivity.
Qed.

(** ** Blobs *)

(** C4 on the code.  [readBlob] asks [binary.Read] to fill an [int], which
    has no fixed size: the call is refused before a byte is read, and
    [readBlob] returns that error on every input.  A well-formed blob, the
    length 2, the bytes ["ab"] and two bytes of padding, is not decoded. *)
Theorem readBlob_fails_on_every_input :
  (forall st, readBlob st = (Fail (ErrBinaryInvalidType Tint), st)) /\
  readBlob (mkDecState ([x00; x00; x00; x02] ++ bytes "ab" ++ [x00; x00]) 0) <>
    (Ret (bytes "ab", 8), mkDecState [] 0).
Proof.
  split; [reflexivity | discriminate].
Qed.

(** C6 on the code.  A tag ['b'] never appends an argument: the loop of
    [readArguments] ends there with the error of [readBlob], whatever
    follows, and a message with a complete blob is not decoded. *)
Theorem readArguments_loop_blob_tag_fails :
  (forall typetags msg st,
      readArguments_loop (String "b" typetags) msg st =
      (Fail (ErrBinaryInvalidType Tint), st)) /\
  fst (readPacket 16 (mkDecState dgram_blob 0)) =
    Fail (ErrBinaryInvalidType Tint).
Proof.
  split; [reflexivity | vm_compute; reflexivity].
Qed.

(** ** The timetag argument *)

(** C10.  Let the type-tag string be [","], tags [pre], a ['t'] and tags
    [post]; let the arguments of [pre] decode, one for every tag, and let
    the 8 bytes of the timetag not be there, so that [binary.Read] fails.
    Then [readArguments] returns a nil error, and the message it leaves
    holds the arguments of [pre] only: the timetag and all that follow it
    are missing. *)
Theorem readArguments_timetag_error_discarded :
  forall msg st pre post n st0 msg1 st1 err st2,
    readPaddedString st = (Ret (String "," (String.append pre (String "t" post)), n), st0) ->
    readArguments_loop pre msg (mkDecState (reader st0) (start st0 + n)) =
      (Ret msg1, st1) ->
    length (Arguments msg1) = (length (Arguments msg) + String.length pre)%nat ->
    binary_Read Tuint64 st1 = (Fail err, st2) ->
    readArguments msg st = (Ret msg1, st2) /\
    (length (Arguments msg1) <
     length (Arguments msg) +
     String.length (String.append pre (String "t" post)))%nat.
Proof.
  intros msg st pre post n st0 msg1 st1 err st2 Htags Hpre Hlen Hread.
  split.
  - unfold readArguments, bind at 1. rewrite Htags.
    unfold bind at 1, add_start. cbn [fst snd negb Ascii.eqb Bool.eqb].
    rewrite (readArguments_loop_app _ _ _ _ _ _ Hpre Hlen).
    cbn [readArguments_loop Ascii.eqb Bool.eqb].
    unfold bind_err. rewrite Hread. reflexivity.
  - rewrite Hlen. clear. induction pre; simpl in *; lia.
Qed.

(** C10 at work: [",it"], an int32 and three bytes decode, without error,
    to a message that holds the int32 alone. *)
Lemma readArguments_timetag_error_discarded_witness :
  fst (readArguments (mkMessage "/a" [])
         (mkDecState (drop 4 dgram_timetag_short) 4)) =
  Ret (mkMessage "/a" [ArgInt32 7]).
Proof.
  refine (f_equal fst
            (proj1 (readArguments_timetag_error_discarded
                      (mkMessage "/a" []) _ "i" "" 4
                      (mkDecState (drop 8 dgram_timetag_short) 4)
                      (mkMessage "/a" [ArgInt32 7])
                      (mkDecState (drop 12 dgram_timetag_short) 12)
                      ErrUnexpectedEOF
                      (mkDecState [] 12) _ _ _ _)));
    vm_compute; reflexivity.
Defined.

(** ** The accounting of string arguments *)

(** What [readArguments] adds to [*start] for a string of [n] bytes, next to
    the bytes the string takes on the wire: the same when [n] is not a
    multiple of 4, and 4 less when it is. *)
Lemma string_accounting_gap n :
  0 <= n ->
  n + padBytesNeeded n =
  (n + 1 + padBytesNeeded (n + 1)) - (if n mod 4 =? 0 then 4 else 0).
Proof.
  intros Hn. unfold padBytesNeeded.
  rewrite (Z.rem_mod_nonneg n 4), (Z.rem_mod_nonneg (n + 1) 4) by lia.
  pose proof (Z.mod_pos_bound n 4 ltac:(lia)) as Hr.
  pose proof (Z.mod_pos_bound (n + 1) 4 ltac:(lia)) as Hr1.
  rewrite !Z.rem_mod_nonneg by lia.
  assert (E1 : (n + 1) mod 4 = (n mod 4 + 1) mod 4)
    by (rewrite Z.add_mod by lia; reflexivity).
  rewrite E1.
  assert (C : n mod 4 = 0 \/ n mod 4 = 1 \/ n mod 4 = 2 \/ n mod 4 = 3) by lia.
  destruct C as [C | [C | [C | C]]]; rewrite C; vm_compute Z.eqb;
    cbv iota;
    repeat match goal with
           | |- context [Z.modulo ?a 4] =>
             let v := eval vm_compute in (Z.modulo a 4) in
             change (Z.modulo a 4) with v
           end; lia.
Qed.

Lemma length_string_of_list_byte bs :
  String.length (string_of_list_byte bs) = length bs.
Proof.
  induction bs as [| b bs IH]; simpl; [reflexivity |].
  f_equal. exact IH.
Qed.

(** What [readPaddedString] returns as its count is the size of the string
    on the wire, terminator and padding included, and it is the number of
    bytes it consumed. *)
Lemma readPaddedString_count st s n st' :
  readPaddedString st = (Ret (s, n), st') ->
  n = len s + 1 + padBytesNeeded (len s + 1) /\
  Z.of_nat (length (reader st)) = Z.of_nat (length (reader st')) + n /\
  start st' = start st.
Proof.
  unfold readPaddedString.
  destruct (index_nul (reader st)) as [k |]; [| discriminate].
  match goal with |- context [(?a <=? ?b)%nat] =>
    destruct (Nat.leb_spec a b) as [Hle | Hle] end; [| discriminate].
  intros [= <- <- <-]. simpl.
  assert (Hpad : 0 <= padBytesNeeded (Z.of_nat k + 1)).
  { unfold padBytesNeeded.
    rewrite (Z.rem_mod_nonneg (Z.of_nat k + 1) 4) by lia.
    pose proof (Z.mod_pos_bound (Z.of_nat k + 1) 4 ltac:(lia)).
    rewrite Z.rem_mod_nonneg by lia.
    apply Z.mod_pos_bound. lia. }
  unfold len. rewrite length_string_of_list_byte, length_take, length_drop.
  rewrite Nat.min_l by lia. repeat split; lia.
Qed.

(** The step of the loop on a tag ['s']: the string is appended, the input
    is where [readPaddedString] left it, and [*start] has advanced by the
    content length rounded up to a multiple of 4, which is 4 short of the
    bytes consumed whenever the content length is a multiple of 4. *)
Lemma readArguments_loop_string_step typetags msg st s n st' :
  readPaddedString st = (Ret (s, n), st') ->
  readArguments_loop (String "s" typetags) msg st =
  readArguments_loop typetags (Message_Append msg (ArgString s))
    (mkDecState (reader st')
       (start st + (n - (if len s mod 4 =? 0 then 4 else 0)))).
Proof.
  intros H. destruct (readPaddedString_count _ _ _ _ H) as (Hn & _ & Hs).
  cbn [readArguments_loop Ascii.eqb Bool.eqb].
  unfold bind at 1. rewrite H. unfold bind at 1, add_start.
  cbn [fst snd reader start].
  rewrite Hs, Hn, string_accounting_gap by (unfold len; lia).
  reflexivity.
Qed.

(** C5 on the code.  The string ["abcd"] takes 8 bytes on the wire, its
    terminator and padding included, and the decoder consumes them; the
    count [*start] advances by 4.  After the whole message of 16 bytes the
    count is 12.  (For ["abc"], 4 bytes on the wire, it advances by 4.)
    In a bundle of 36 bytes that ends with this message the loop
    [for *start < end] therefore goes round once more: it reads 40 bytes,
    4 of them behind the datagram, and appends a nil packet. *)
Theorem string_argument_accounting_short :
  readArguments_loop "s" (mkMessage "/a" [])
    (mkDecState (bytes "abcd" ++ [x00; x00; x00; x00]) 8) =
    (Ret (mkMessage "/a" [ArgString "abcd"]), mkDecState [] 12) /\
  readPacket 16 (mkDecState dgram_string4 0) =
    (Ret (MessagePacket (mkMessage "/a" [ArgString "abcd"])),
     mkDecState [] 12) /\
  length dgram_string4 = 16%nat /\
  readPacket 12 (mkDecState dgram_string3 0) =
    (Ret (MessagePacket (mkMessage "/a" [ArgString "abc"])),
     mkDecState [] 12) /\
  length dgram_bundle_string4 = 36%nat /\
  fst (readPacket 36 (in_buffer dgram_bundle_string4)) =
    Ret (BundlePacket
           (mkBundle 1 [MessagePacket (mkMessage "/a" [ArgString "abcd"]);
                        NilPacket])) /\
  65535 - Z.of_nat (length (reader (snd (readPacket 36
                                           (in_buffer dgram_bundle_string4))))) = 40.
Proof.
  repeat split; vm_compute; reflexivity.
Qed.

(** ** Reading from the connection *)

Section ServerProperties.
Context {HandlerFunc : Type}.
Implicit Types self : Server HandlerFunc.

End ServerProperties.



(** C1 on the code.  The datagram holds a blob that declares 8 bytes and
    brings 2.  Its decoding fails, with the error of [binary.Read] about the
    type and not with a truncation error; [readFromConnection] drops the
    error and returns a nil packet with a nil error; [ListenAndDispatch]
    does not return: it hands the nil packet to the dispatcher and waits
    for the next datagram. *)
Theorem truncated_blob_error_not_surfaced :
  fst (readPacket 14 (in_buffer dgram_blob_truncated)) =
    Fail (ErrBinaryInvalidType Tint) /\
  is_TruncatedInput (ErrBinaryInvalidType Tint) = false /\
  readFromConnection listening (Datagram dgram_blob_truncated) =
    Ret NilPacket /\
  ListenAndDispatch (NewServer (HandlerFunc := unit) "localhost:6677")
    None None [Datagram dgram_blob_truncated] = ([NilPacket], Waiting).
Proof.
  repeat split; vm_compute; reflexivity.
Qed.

(** C2 on the code.  The datagram ["/a"] with its padding, a message
    without a type-tag string, makes the decoder panic; the panic goes
    through [readFromConnection] and ends [ListenAndDispatch], and the
    datagram that follows is never read. *)
Theorem malformed_datagram_panics :
  readFromConnection listening (Datagram dgram_no_typetags) =
    Panic IndexOutOfRange /\
  ListenAndDispatch (NewServer (HandlerFunc := unit) "localhost:6677")
    None None [Datagram dgram_no_typetags; Datagram dgram_test] =
    ([], Panicked IndexOutOfRange).
Proof.
  split; vm_compute; reflexivity.
Qed.

(** ** Registration *)

Lemma contains_any_wildcards_reserved s :
  contains_any wildcards s = true -> contains_any reserved s = true.
Proof.
  unfold contains_any, reserved. rewrite !existsb_exists.
  intros (c & Hin & Hc). exists c. split; [exact Hin |].
  apply existsb_exists in Hc. destruct Hc as (w & Hw & E).
  apply existsb_exists. exists w. split; [| exact E].
  apply in_or_app. left. exact Hw.
Qed.

Section Registration.
Context {HandlerFunc : Type}.
Implicit Types self : Server HandlerFunc.

(** C8.  On a server with a dispatcher, registering a handler succeeds,
    and binds the address to the handler, when the address starts with
    ['/'] and is concrete (it holds none of [*?[]{}] and no space); it
    fails with InvalidAddress when the address holds one of the wildcard
    characters [*?[]{}], and when it does not start with ['/']. *)
Theorem AddMsgHandler_validates_address :
  forall self d address (handler : HandlerFunc),
    dispatcher self = Some d ->
    (starts_with_slash address = true ->
     contains_any reserved address = false ->
     AddMsgHandler self address handler =
     Ret (mkServer (Address self) (readTimeout self)
            (Some (mkOscDispatcher (<[address := handler]> (handlers d))))
            (running self) (conn self))) /\
    (contains_any wildcards address = true ->
     AddMsgHandler self address handler = Fail ErrInvalidAddress) /\
    (starts_with_slash address = false ->
     AddMsgHandler self address handler = Fail ErrInvalidAddress).
Proof.
  intros self d address handler Hd.
  unfold AddMsgHandler, OscDispatcher_AddMsgHandler, validateRegistration.
  rewrite Hd. repeat split.
  - intros -> ->. reflexivity.
  - intros H. rewrite (contains_any_wildcards_reserved _ H). reflexivity.
  - intros ->. destruct (contains_any reserved address); reflexivity.
Qed.
End Registration.

(** C8 on the addresses of the tests: ["/address/test"] is registered,
    ["/address*/test"] and ["address/test"] are refused. *)
Lemma AddMsgHandler_validates_address_witness :
  AddMsgHandler (NewServer "localhost:6677") "/address/test" tt =
    Ret (mkServer "localhost:6677" 0
           (Some (mkOscDispatcher (<["/address/test"%string := tt]> ∅)))
           false None) /\
  AddMsgHandler (NewServer "localhost:6677") "/address*/test" tt =
    Fail ErrInvalidAddress /\
  AddMsgHandler (NewServer "localhost:6677") "address/test" tt =
    Fail ErrInvalidAddress.
Proof.
  split; [| split].
  - apply (proj1 (AddMsgHandler_validates_address
                    (NewServer "localhost:6677") NewOscDispatcher
                    "/address/test" tt eq_refl)); reflexivity.
  - apply (proj1 (proj2 (AddMsgHandler_validates_address
                    (NewServer "localhost:6677") NewOscDispatcher
                    "/address*/test" tt eq_refl))); reflexivity.
  - apply (proj2 (proj2 (AddMsgHandler_validates_address
                    (NewServer "localhost:6677") NewOscDispatcher
                    "address/test" tt eq_refl))); reflexivity.
Defined.

(** * Further properties of the decoder and the server *)

(** ** The count [*start] never decreases *)

Lemma advances_bind_err {A B} (m : M A) (k : A -> M B) (h : error -> M B) st :
  advances m st ->
  (forall a st', m st = (Ret a, st') -> advances (k a) st') ->
  (forall e st', m st = (Fail e, st') -> advances (h e) st') ->
  advances (bind_err m k h) st.
Proof.
  unfold advances, bind_err. intros Hm Hk Hh.
  destruct (m st) as [[a | e | p | ] st'] eqn:E; simpl in *; trivial.
  - specialize (Hk a st' eq_refl). lia.
  - specialize (Hh e st' eq_refl). lia.
Qed.

Lemma advances_bind {A B} (m : M A) (k : A -> M B) st :
  advances m st ->
  (forall a st', m st = (Ret a, st') -> advances (k a) st') ->
  advances (bind m k) st.
Proof.
  unfold advances, bind. intros Hm Hk.
  destruct (m st) as [[a | e | p | ] st'] eqn:E; simpl in *; trivial.
  specialize (Hk a st' eq_refl). lia.
Qed.

Lemma advances_ret {A} (a : A) st : advances (ret a) st.
Proof. unfold advances. simpl. lia. Qed.
Lemma advances_fail {A} e st : advances (@fail A e) st.
Proof. unfold advances. simpl. lia. Qed.
Lemma advances_raise {A} p st : advances (@raise A p) st.
Proof. unfold advances. simpl. lia. Qed.
Lemma advances_add_start n st : 0 <= n -> advances (add_start n) st.
Proof. unfold advances. simpl. lia. Qed.
Lemma advances_Peek1 st : advances Peek1 st.
Proof. unfold advances, Peek1. destruct (reader st); simpl; lia. Qed.
Lemma advances_ReadFull n st : advances (ReadFull n) st.
Proof. unfold advances, ReadFull. destruct (_ <=? _)%nat; simpl; lia. Qed.
Lemma advances_Read n st : advances (Read n) st.
Proof. unfold advances, Read. destruct n, (reader st); simpl; lia. Qed.
Lemma advances_binary_Read t st : advances (binary_Read t) st.
Proof.
  unfold binary_Read. destruct (dataSize t).
  - apply advances_bind; [apply advances_ReadFull | intros; apply advances_ret].
  - apply advances_fail.
Qed.
Lemma advances_readPaddedString st : advances readPaddedString st.
Proof.
  unfold advances, readPaddedString.
  destruct (index_nul (reader st)); [destruct (_ <=? _)%nat |]; simpl; lia.
Qed.

Lemma padBytesNeeded_range n : 0 <= n -> 0 <= padBytesNeeded n < 4.
Proof.
  intros Hn. unfold padBytesNeeded.
  rewrite (Z.rem_mod_nonneg n 4) by lia.
  pose proof (Z.mod_pos_bound n 4 ltac:(lia)).
  rewrite Z.rem_mod_nonneg by lia.
  apply Z.mod_pos_bound. lia.
Qed.

Lemma readPaddedString_count_nonneg st p st' :
  readPaddedString st = (Ret p, st') -> 0 <= snd p.
Proof.
  destruct p as [s n]. intros H.
  destruct (readPaddedString_count _ _ _ _ H) as (-> & _ & _).
  pose proof (padBytesNeeded_range (len s + 1)). unfold len in *. simpl. lia.
Qed.

Create HintDb advance.
#[local] Hint Resolve advances_ret advances_fail advances_raise
  advances_Peek1 advances_ReadFull advances_Read advances_binary_Read
  advances_readPaddedString : advance.

Ltac advance_step :=
  repeat first
    [ solve [auto with advance]
    | apply advances_add_start; lia
    | apply advances_bind; [solve [auto with advance] | intros ? ? ?]
    | apply advances_bind;
        [apply advances_add_start | intros ? ? ?]
    | apply advances_bind_err;
        [solve [auto with advance] | intros ? ? ? | intros ? ? ?] ].

Lemma advances_readArguments_loop typetags :
  forall msg st, advances (readArguments_loop typetags msg) st.
Proof.
  induction typetags as [| c typetags IH]; intros msg st; simpl.
  - auto with advance.
  - repeat match goal with
           | |- advances (if ?b then _ else _) _ => destruct b
           end; advance_step; auto; try lia.
    + pose proof (padBytesNeeded_range (len a.1)). unfold len in *. lia.
    + apply advances_bind; [unfold advances; simpl; lia |].
      intros p st' H. discriminate H.
Qed.
#[local] Hint Resolve advances_readArguments_loop : advance.

Lemma advances_readArguments msg st : advances (readArguments msg) st.
Proof.
  unfold readArguments.
  apply advances_bind; [auto with advance | intros p st1 H1].
  apply advances_bind;
    [apply advances_add_start; eapply readPaddedString_count_nonneg; eauto |].
  intros [] st2 _.
  destruct (fst p) as [| c typetags]; [auto with advance |].
  destruct (negb _); auto with advance.
Qed.

Lemma advances_readMessage st : advances readMessage st.
Proof.
  unfold readMessage.
  apply advances_bind; [auto with advance | intros p st1 H1].
  apply advances_bind;
    [apply advances_add_start; eapply readPaddedString_count_nonneg; eauto |].
  intros [] st2 _. apply advances_readArguments.
Qed.

Lemma advances_readBundle_with loop st :
  (forall bundle st', advances (loop bundle) st') ->
  advances (readBundle_with loop) st.
Proof.
  intros Hloop. unfold readBundle_with.
  apply advances_bind; [auto with advance | intros p st1 H1].
  apply advances_bind;
    [apply advances_add_start; eapply readPaddedString_count_nonneg; eauto |].
  intros [] st2 _.
  destruct (negb _); [auto with advance |].
  apply advances_bind; [auto with advance | intros timeTag st3 _].
  apply advances_bind; [apply advances_add_start; lia | intros [] st4 _].
  apply Hloop.
Qed.

Lemma advances_rec end_ fuel :
  (forall st, advances (readPacket_rec fuel end_) st) /\
  (forall bundle st, advances (readBundle_loop fuel end_ bundle) st).
Proof.
  induction fuel as [| fuel [IHp IHl]].
  - split; [intros st; unfold advances; simpl; lia |].
    intros bundle st. unfold advances. simpl.
    destruct (start st <? end_); simpl; lia.
  - split.
    + intros st. simpl.
      apply advances_bind; [auto with advance | intros b st1 _].
      destruct (Byte.eqb b "/").
      { apply advances_bind; [apply advances_readMessage | auto with advance]. }
      destruct (Byte.eqb b "#"); [| auto with advance].
      apply advances_bind; [| auto with advance].
      apply advances_readBundle_with. exact IHl.
    + intros bundle st. unfold advances. simpl.
      destruct (start st <? end_); [| simpl; lia].
      apply advances_bind_err; [auto with advance | |].
      * intros v st1 _.
        apply advances_bind; [apply advances_add_start; lia | intros [] st2 _].
        apply advances_bind; [apply IHp | intros packet st3 _]. apply IHl.
      * intros e st1 _.
        apply advances_bind; [apply advances_add_start; lia | auto with advance].
Qed.

(** The count [*start] never goes down: whatever [readPacket], [readBundle]
    and [readMessage] make of their input, also when they fail or panic,
    they leave the count at least where they found it. *)
Theorem readPacket_start_never_decreases :
  forall end_ st,
    start st <= start (snd (readPacket end_ st)) /\
    start st <= start (snd (readBundle end_ st)) /\
    start st <= start (snd (readMessage st)).
Proof.
  intros end_ st. split; [| split].
  - apply (proj1 (advances_rec end_ _)).
  - unfold readBundle, readBundle_rec.
    apply advances_readBundle_with. apply advances_rec.
  - apply advances_readMessage.
Qed.


Lemma Bundle_Elements_Append bundle p :
  Bundle_Elements (Bundle_Append bundle p) = Bundle_Elements bundle ++ [p].
Proof. destruct bundle. reflexivity. Qed.

Lemma readBundle_loop_exit end_ fuel :
  forall bundle st b' st',
    readBundle_loop fuel end_ bundle st = (Ret b', st') ->
    end_ <= start st' /\
    Z.of_nat (length (Bundle_Elements b')) <=
    Z.of_nat (length (Bundle_Elements bundle)) +
    Z.max 0 ((end_ - start st + 3) / 4).
Proof.
  induction fuel as [| fuel IH]; intros bundle st b' st'; simpl.
  - destruct (Z.ltb_spec (start st) end_); [discriminate |].
    intros [= <- <-]. split; [lia |]. Z.div_mod_to_equations. lia.
  - destruct (Z.ltb_spec (start st) end_) as [Hlt | Hge].
    + unfold bind_err, bind.
      destruct (binary_Read Tint32 st) as [[v | e | p | ] st1] eqn:E1;
        try discriminate.
      cbn [add_start].
      pose proof (advances_binary_Read Tint32 st) as A1.
      unfold advances in A1. rewrite E1 in A1. simpl in A1.
      destruct (readPacket_rec fuel end_ _) as [[packet | e | p | ] st3] eqn:E3;
        try discriminate.
      match type of E3 with
      | readPacket_rec _ _ ?s = _ =>
        pose proof (proj1 (advances_rec end_ fuel) s) as A3
      end.
      unfold advances in A3. rewrite E3 in A3. simpl in A3.
      intros Hloop. apply IH in Hloop. destruct Hloop as [Hend Hcount].
      split; [exact Hend |].
      rewrite Bundle_Elements_Append, length_app in Hcount. simpl in Hcount.
      revert Hcount. Z.div_mod_to_equations. lia.
    + intros [= <- <-]. split; [lia |]. Z.div_mod_to_equations. lia.
Qed.

(** [readBundle] returns a bundle only once the count has reached [end],
    and every element costs the count at least 4 after the 16 of the
    header: the bundle holds at most [(end - start - 13) / 4] elements, and
    none when [end] is no more than 16 past the count at the start. *)
Theorem readBundle_reads_up_to_end :
  forall end_ st bundle st',
    readBundle end_ st = (Ret bundle, st') ->
    end_ <= start st' /\
    Z.of_nat (length (Bundle_Elements bundle)) <=
    Z.max 0 ((end_ - start st - 13) / 4).
Proof.
  intros end_ st bundle st'. unfold readBundle, readBundle_rec, readBundle_with.
  unfold bind at 1.
  destruct (readPaddedString st) as [[[startTag n] | e | p | ] st1] eqn:E1;
    try discriminate.
  unfold bind at 1. cbn [add_start fst snd].
  destruct (String.eqb_spec startTag BundleTag) as [-> | _];
    [| discriminate].
  cbn [negb]. unfold bind at 1.
  destruct (binary_Read Tuint64 _) as [[timeTag | e | p | ] st3] eqn:E3;
    try discriminate.
  unfold bind at 1. cbn [add_start].
  intros Hloop. apply readBundle_loop_exit in Hloop.
  destruct Hloop as [Hend Hcount]. split; [exact Hend |].
  apply readPaddedString_count in E1. destruct E1 as (Hn & _ & Hs).
  change (len BundleTag + 1 + padBytesNeeded (len BundleTag + 1)) with 8 in Hn.
  pose proof (advances_binary_Read Tuint64
                (mkDecState (reader st1) (start st1 + n))) as A3.
  unfold advances in A3. rewrite E3 in A3.
  cbn [reader start snd Bundle_Elements NewBundle length] in *.
  revert Hcount. Z.div_mod_to_equations. lia.
Qed.

(** ** Big-endian values *)
Lemma Z_of_byte_range b : 0 <= Z.of_N (Byte.to_N b) < 256.
Proof. pose proof (Byte.to_N_bounded b). lia. Qed.

Lemma Z_of_byte_of_Z z : 0 <= z < 256 -> Z.of_N (Byte.to_N (byte_of_Z z)) = z.
Proof.
  intros Hz. unfold byte_of_Z.
  destruct (Byte.of_N (Z.to_N z)) as [b |] eqn:E.
  - apply Byte.to_of_N in E. rewrite E. lia.
  - apply Byte.of_N_None_iff in E. lia.
Qed.

Lemma lor_shiftl_byte a b :
  0 <= b < 256 -> Z.lor (Z.shiftl a 8) b = a * 256 + b.
Proof.
  intros Hb. pose proof (Z.add_lor_land (Z.shiftl a 8) b) as Hadd.
  assert (E : Z.land (Z.shiftl a 8) b = 0).
  { apply Z.bits_inj'. intros n Hn. rewrite Z.land_spec, Z.bits_0.
    destruct (Z.lt_ge_cases n 8).
    - rewrite Z.shiftl_spec_low by lia. reflexivity.
    - rewrite (Z.bits_above_log2 b n); [apply andb_false_r | lia |].
      destruct (Z.eq_dec b 0) as [-> | Hnz]; [simpl; lia |].
      apply Z.log2_lt_pow2; [lia |].
      apply Z.lt_le_trans with (2 ^ 8); [lia |].
      apply Z.pow_le_mono_r; lia. }
  rewrite E in Hadd. rewrite Z.shiftl_mul_pow2 in * by lia.
  change (2 ^ 8) with 256 in *. lia.
Qed.

Lemma be_uint_snoc bs b :
  be_uint (bs ++ [b]) = be_uint bs * 256 + Z.of_N (Byte.to_N b).
Proof.
  unfold be_uint. rewrite fold_left_app. simpl.
  apply lor_shiftl_byte, Z_of_byte_range.
Qed.

Lemma be_uint_be_bytes n :
  forall v, be_uint (be_bytes n v) = v mod 2 ^ (8 * Z.of_nat n).
Proof.
  induction n as [| n IH]; intros v.
  - simpl. rewrite Z.mod_1_r. reflexivity.
  - cbn [be_bytes].
    rewrite be_uint_snoc, IH, Z_of_byte_of_Z by (apply Z.mod_pos_bound; lia).
    replace (8 * Z.of_nat (S n)) with (8 + 8 * Z.of_nat n) by lia.
    rewrite Z.pow_add_r by lia. change (2 ^ 8) with 256.
    assert (0 < 2 ^ (8 * Z.of_nat n)) by (apply Z.pow_pos_nonneg; lia).
    rewrite Z.rem_mul_r by lia. ring.
Qed.

Lemma be_uint_range bs : 0 <= be_uint bs < 2 ^ (8 * Z.of_nat (length bs)).
Proof.
  induction bs as [| b bs IH] using rev_ind.
  - vm_compute. split; [discriminate | reflexivity].
  - rewrite be_uint_snoc, length_app. simpl length.
    replace (8 * Z.of_nat (length bs + 1))
      with (8 * Z.of_nat (length bs) + 8) by lia.
    rewrite Z.pow_add_r by lia. change (2 ^ 8) with 256.
    pose proof (Z_of_byte_range b).
    assert (0 < 2 ^ (8 * Z.of_nat (length bs)))
      by (apply Z.pow_pos_nonneg; lia).
    nia.
Qed.

Lemma length_be_bytes n : forall v, length (be_bytes n v) = n.
Proof.
  induction n as [| n IH]; intros v; simpl; [reflexivity |].
  rewrite length_app, IH. simpl. lia.
Qed.

(** A value that was read is the big-endian value of the first bytes. *)
Lemma binary_Read_value t v st st' :
  binary_Read t st = (Ret v, st') ->
  exists n,
    dataSize t = Some n /\ (n <= length (reader st))%nat /\
    v = decode_be t (take n (reader st)) /\
    st' = mkDecState (drop n (reader st)) (start st).
Proof.
  unfold binary_Read. destruct (dataSize t) as [n |]; [| discriminate].
  unfold bind, ReadFull, ret.
  destruct (Nat.leb_spec n (length (reader st))); [| discriminate].
  intros [= <- <-]. exists n. auto.
Qed.

Lemma binary_Read_decodable t v st st' mk :
  binary_Read t st = (Ret v, st') ->
  In (t, mk) [(Tint32, ArgInt32); (Tint64, ArgInt64); (Tfloat32, ArgFloat32);
              (Tfloat64, ArgFloat64); (Tuint64, ArgTimetag)] ->
  decodable_arg (mk v) = true.
Proof.
  intros H Hin. apply binary_Read_value in H.
  destruct H as (n & Hsz & Hlen & -> & _).
  pose proof (be_uint_range (take n (reader st))) as Hr.
  rewrite length_take, Nat.min_l in Hr by lia.
  simpl in Hin.
  repeat (destruct Hin as [[= <- <-] | Hin]); [.. | contradiction];
    injection Hsz as <-; cbn [decodable_arg decode_be];
    change (8 * Z.of_nat 4) with 32 in Hr;
    change (8 * Z.of_nat 8) with 64 in Hr;
    unfold to_signed;
    repeat match goal with
           | |- context [?a <? ?b] => destruct (Z.ltb_spec a b)
           | |- context [?a <=? ?b] => destruct (Z.leb_spec a b)
           end; simpl; try reflexivity; try lia.
Qed.

Lemma index_nul_spec bs : forall k,
  index_nul bs = Some k ->
  (k < length bs)%nat /\
  forallb (fun b => negb (Byte.eqb b x00)) (take k bs) = true /\
  nth k bs x01 = x00.
Proof.
  induction bs as [| b bs IH]; intros k; simpl; [discriminate |].
  destruct (Byte.eqb b x00) eqn:E.
  - intros [= <-]. simpl. split; [lia |]. split; [reflexivity |].
    apply Byte.byte_dec_bl in E. exact E.
  - destruct (index_nul bs) as [k' |]; [| discriminate].
    intros [= <-]. destruct (IH k' eq_refl) as (Hlt & Hall & Hnth).
    simpl. rewrite E, Hall. split; [lia |]. split; [reflexivity | exact Hnth].
Qed.

Lemma readPaddedString_no_nul st p st' :
  readPaddedString st = (Ret p, st') -> no_nul (fst p) = true.
Proof.
  unfold readPaddedString.
  destruct (index_nul (reader st)) as [k |] eqn:E; [| discriminate].
  destruct (_ <=? _)%nat; [| discriminate].
  intros [= <- _]. simpl. unfold no_nul.
  rewrite list_byte_of_string_of_list_byte.
  apply index_nul_spec in E. tauto.
Qed.

Lemma length_list_ascii_of_string s :
  length (list_ascii_of_string s) = String.length s.
Proof. induction s as [| c s IH]; simpl; [reflexivity | f_equal; exact IH]. Qed.

Lemma readArguments_loop_appends_prefix typetags :
  forall msg st msg' st',
    readArguments_loop typetags msg st = (Ret msg', st') ->
    address msg' = address msg /\
    exists args rest,
      Arguments msg' = Arguments msg ++ args /\
      list_ascii_of_string typetags = map tag_of args ++ rest /\
      forallb decodable_arg args = true.
Proof.
  induction typetags as [| c typetags IH]; intros msg st msg' st' Hrun.
  - injection Hrun as <- <-. split; [reflexivity |].
    exists [], []. rewrite app_nil_r. auto.
  - assert (Hstep : forall a st1,
               readArguments_loop typetags (Message_Append msg a) st1 =
               (Ret msg', st') ->
               c = tag_of a -> decodable_arg a = true ->
               address msg' = address msg /\
               exists args rest,
                 Arguments msg' = Arguments msg ++ args /\
                 list_ascii_of_string (String c typetags) =
                 map tag_of args ++ rest /\
                 forallb decodable_arg args = true).
    { intros a st1 H -> Ha. apply IH in H.
      destruct H as (Hadr & args & rest & Hargs & Htags & Hok).
      split; [exact Hadr |]. exists (a :: args), rest.
      simpl in *. rewrite Hargs, <- app_assoc, Htags, Ha, Hok. auto. }
    cbn [readArguments_loop] in Hrun.
    repeat match type of Hrun with
           | (if (c =? ?x)%char then _ else _) _ = _ =>
             destruct (Ascii.eqb_spec c x) as [-> | _]
           end;
      try discriminate;
      unfold bind, bind_err in Hrun;
      repeat match type of Hrun with
             | match ?m ?s with _ => _ end = _ =>
               destruct (m s) as [[? | ? | ? | ] ?] eqn:?;
                 try discriminate; cbn [add_start] in Hrun
             end.
    all: try (eapply Hstep; [exact Hrun | reflexivity |];
              first [ reflexivity
                    | eapply binary_Read_decodable; [eassumption |];
                      simpl; tauto
                    | eapply readPaddedString_no_nul; eassumption ]).
    injection Hrun as <- <-. split; [reflexivity |].
    exists [], (list_ascii_of_string (String "t" typetags)).
    rewrite app_nil_r. auto.
Qed.

(** What the loop of [readArguments] leaves in the message when it returns
    a nil error: the address is untouched, the arguments that were there
    stay in front, the tags of the appended arguments are an initial part
    of the tag string, in order, so that there are no more of them than
    tags, and every appended value fits its Go type (numbers in range,
    strings without a zero byte, no blob). *)
Theorem readArguments_loop_appends :
  forall typetags msg st msg' st',
    readArguments_loop typetags msg st = (Ret msg', st') ->
    address msg' = address msg /\
    exists args rest,
      Arguments msg' = Arguments msg ++ args /\
      list_ascii_of_string typetags = map tag_of args ++ rest /\
      (length args <= String.length typetags)%nat /\
      forallb decodable_arg args = true.
Proof.
  intros typetags msg st msg' st' Hrun.
  apply readArguments_loop_appends_prefix in Hrun.
  destruct Hrun as (Hadr & args & rest & Hargs & Htags & Hok).
  split; [exact Hadr |]. exists args, rest.
  repeat split; try assumption.
  rewrite <- length_list_ascii_of_string, Htags, length_app, length_map. lia.
Qed.

(** ** Decoding well-formed input *)
Lemma length_list_byte_of_string s :
  length (list_byte_of_string s) = String.length s.
Proof.
  rewrite <- (string_of_list_byte_of_string s) at 2.
  symmetry. apply length_string_of_list_byte.
Qed.

Lemma index_nul_app l r :
  forallb (fun b => negb (Byte.eqb b x00)) l = true ->
  index_nul (l ++ x00 :: r) = Some (length l).
Proof.
  induction l as [| b l IH]; simpl; [reflexivity |].
  intros H. apply andb_prop in H. destruct H as [Hb Hl].
  destruct (Byte.eqb b x00); [discriminate |].
  rewrite (IH Hl). reflexivity.
Qed.

Lemma length_osc_string s :
  Z.of_nat (length (osc_string s)) = len s + 1 + padBytesNeeded (len s + 1).
Proof.
  unfold osc_string. rewrite length_app. cbn [length].
  rewrite repeat_length, length_list_byte_of_string.
  pose proof (padBytesNeeded_range (len s + 1)). unfold len in *. lia.
Qed.

Lemma readPaddedString_osc_string s rest s0 :
  no_nul s = true ->
  readPaddedString (mkDecState (osc_string s ++ rest) s0) =
  (Ret (s, Z.of_nat (length (osc_string s))), mkDecState rest s0).
Proof.
  intros Hs. unfold readPaddedString. cbn [reader start].
  assert (Hidx : index_nul (osc_string s ++ rest) =
                 Some (length (list_byte_of_string s))).
  { unfold osc_string. rewrite <- app_assoc. cbn [app].
    apply index_nul_app. exact Hs. }
  rewrite Hidx.
  assert (Hn : (length (list_byte_of_string s) + 1 +
                Z.to_nat (padBytesNeeded
                            (Z.of_nat (length (list_byte_of_string s)) + 1)))%nat
               = length (osc_string s)).
  { unfold osc_string. rewrite length_app. cbn [length].
    rewrite repeat_length, length_list_byte_of_string. unfold len. lia. }
  rewrite Hn. rewrite length_app.
  destruct (Nat.leb_spec (length (osc_string s))
                         (length (osc_string s) + length rest)); [| lia].
  rewrite drop_app_length.
  unfold osc_string at 1. rewrite <- app_assoc, take_app_length.
  rewrite string_of_list_byte_of_string. reflexivity.
Qed.

Lemma binary_Read_be_bytes t n v rest s0 :
  dataSize t = Some n ->
  binary_Read t (mkDecState (be_bytes n v ++ rest) s0) =
  (Ret (decode_be t (be_bytes n v)), mkDecState rest s0).
Proof.
  intros Hsz. unfold binary_Read. rewrite Hsz.
  unfold bind, ReadFull, ret. cbn [reader start].
  rewrite length_app, length_be_bytes.
  destruct (Nat.leb_spec n (n + length rest)); [| lia].
  rewrite <- (length_be_bytes n v) at 1 3.
  rewrite take_app_length, drop_app_length. reflexivity.
Qed.

Lemma to_signed_mod w v :
  0 < w -> - 2 ^ (w - 1) <= v < 2 ^ (w - 1) ->
  to_signed w (v mod 2 ^ w) = v.
Proof.
  intros Hw Hv. unfold to_signed.
  assert (Hp : 2 ^ w = 2 * 2 ^ (w - 1)).
  { replace w with (1 + (w - 1)) at 1 by lia.
    rewrite Z.pow_add_r by lia. reflexivity. }
  assert (0 < 2 ^ (w - 1)) by (apply Z.pow_pos_nonneg; lia).
  destruct (Z.ltb_spec (v mod 2 ^ w) (2 ^ (w - 1))) as [Hlt | Hge].
  - destruct (Z.lt_ge_cases v 0).
    + rewrite <- (Z.mod_unique v (2 ^ w) (-1) (v + 2 ^ w)) in Hlt; lia.
    + apply Z.mod_small. lia.
  - destruct (Z.lt_ge_cases v 0).
    + rewrite <- (Z.mod_unique v (2 ^ w) (-1) (v + 2 ^ w)); lia.
    + rewrite Z.mod_small in Hge; lia.
Qed.

Lemma decode_be_encode_arg a :
  decodable_arg a = true ->
  match a with
  | ArgInt32 v => decode_be Tint32 (be_bytes 4 v) = v
  | ArgInt64 v => decode_be Tint64 (be_bytes 8 v) = v
  | ArgFloat32 v => decode_be Tfloat32 (be_bytes 4 v) = v
  | ArgFloat64 v => decode_be Tfloat64 (be_bytes 8 v) = v
  | ArgTimetag v => decode_be Tuint64 (be_bytes 8 v) = v
  | _ => True
  end.
Proof.
  destruct a; cbn [decodable_arg decode_be]; trivial; intros H;
    apply andb_prop in H; destruct H as [H1 H2];
    apply Z.leb_le in H1; apply Z.ltb_lt in H2;
    rewrite be_uint_be_bytes;
    change (8 * Z.of_nat 4) with 32; change (8 * Z.of_nat 8) with 64;
    first [ apply to_signed_mod; [lia | split; assumption]
          | apply Z.mod_small; split; assumption ].
Qed.

Lemma short_strings_cons a args :
  short_strings (a :: args) =
  (if short_string a then 1 else 0) + short_strings args.
Proof.
  unfold short_strings. simpl. destruct (short_string a); simpl; lia.
Qed.

Lemma readArguments_loop_encoding args :
  forall msg rest s0,
    forallb decodable_arg args = true ->
    readArguments_loop (string_of_list_ascii (map tag_of args)) msg
      (mkDecState (concat (map encode_arg args) ++ rest) s0) =
    (Ret (mkMessage (address msg) (Arguments msg ++ args)),
     mkDecState rest
       (s0 + Z.of_nat (length (concat (map encode_arg args)))
        - 4 * short_strings args)).
Proof.
  induction args as [| a args IH]; intros msg rest s0 Hok.
  - simpl. unfold ret. rewrite app_nil_r. destruct msg.
    do 2 f_equal. unfold short_strings. simpl. lia.
  - cbn [forallb] in Hok. apply andb_prop in Hok. destruct Hok as [Ha Hargs].
    cbn [map concat string_of_list_ascii]. rewrite <- app_assoc.
    rewrite short_strings_cons, length_app.
    pose proof (decode_be_encode_arg a Ha) as Hval.
    destruct a as [v | v | v | v | s | buf | v | [|]];
      cbn [tag_of encode_arg readArguments_loop Ascii.eqb Bool.eqb
           short_string] in *;
      try discriminate;
      unfold bind, bind_err;
      try (rewrite binary_Read_be_bytes by reflexivity; rewrite Hval;
           cbn [add_start reader start]);
      try (rewrite readPaddedString_osc_string by exact Ha;
           cbn [add_start reader start fst snd]);
      cbn [app]; rewrite IH by exact Hargs;
      cbn [Message_Append address Arguments]; rewrite <- app_assoc;
      cbn [app];
      match goal with
      | |- (_, mkDecState _ ?x) = (_, mkDecState _ ?y) =>
        replace x with y; [reflexivity |]
      end;
      rewrite ?length_be_bytes; cbn [length]; try lia.
    pose proof (length_osc_string s) as Hlen.
    pose proof (string_accounting_gap (len s) ltac:(unfold len; lia)) as Hgap.
    destruct (len s mod 4 =? 0); lia.
Qed.

Lemma list_byte_of_string_cons c s :
  list_byte_of_string (String c s) = byte_of_ascii c :: list_byte_of_string s.
Proof. reflexivity. Qed.

Lemma no_nul_typetags_of args : no_nul (typetags_of args) = true.
Proof.
  unfold no_nul, typetags_of. rewrite list_byte_of_string_cons.
  cbn [forallb]. apply andb_true_intro. split; [reflexivity |].
  induction args as [| a args IH]; [reflexivity |].
  cbn [map string_of_list_ascii]. rewrite list_byte_of_string_cons.
  cbn [forallb]. rewrite IH.
  destruct a as [| | | | | | | []]; reflexivity.
Qed.

Lemma readMessage_encoding m rest s0 :
  no_nul (address m) = true ->
  forallb decodable_arg (Arguments m) = true ->
  readMessage (mkDecState (encode_message m ++ rest) s0) =
  (Ret m,
   mkDecState rest (s0 + Z.of_nat (length (encode_message m))
                    - 4 * short_strings (Arguments m))).
Proof.
  destruct m as [adr args]. intros Hadr Hargs. cbn [address Arguments] in *.
  unfold encode_message, readMessage, readArguments.
  cbn [address Arguments]. rewrite <- !app_assoc.
  unfold bind at 1. rewrite readPaddedString_osc_string by exact Hadr.
  unfold bind at 1. cbn [add_start reader start fst snd].
  unfold bind at 1.
  rewrite readPaddedString_osc_string by apply no_nul_typetags_of.
  unfold bind at 1. cbn [add_start reader start fst snd].
  unfold typetags_of at 1. cbn [Ascii.eqb Bool.eqb negb].
  rewrite readArguments_loop_encoding by exact Hargs.
  cbn [address Arguments app].
  match goal with
  | |- (_, mkDecState _ ?x) = (_, mkDecState _ ?y) =>
    replace x with y; [reflexivity |]
  end.
  rewrite !length_app. lia.
Qed.

Lemma readPacket_message_encoding m rest s0 end_ :
  no_nul (address m) = true ->
  forallb decodable_arg (Arguments m) = true ->
  starts_with_slash (address m) = true ->
  readPacket end_ (mkDecState (encode_message m ++ rest) s0) =
  (Ret (MessagePacket m),
   mkDecState rest (s0 + Z.of_nat (length (encode_message m))
                    - 4 * short_strings (Arguments m))).
Proof.
  intros Hadr Hargs Hslash. rewrite readPacket_unfold.
  pose proof (readMessage_encoding m rest s0 Hadr Hargs) as E.
  remember (encode_message m ++ rest) as wire eqn:Hwire.
  assert (HP : Peek1 (mkDecState wire s0) =
               (Ret "/"%byte, mkDecState wire s0)).
  { destruct m as [[| c adr] args]; [discriminate |].
    cbn [address starts_with_slash] in Hslash.
    apply Ascii.eqb_eq in Hslash. subst c wire. reflexivity. }
  unfold bind at 1. rewrite HP.
  change (Byte.eqb "/" "/") with true. cbv iota.
  unfold bind. rewrite E. reflexivity.
Qed.

(** Decoding a well-formed message.  Let the input start with the wire form
    of a message [m] that holds no blob, whose address and strings hold no
    zero byte and whose numbers fit their types, followed by any bytes.
    Then [readMessage] returns exactly [m] and leaves what follows unread,
    and so does [readPacket], whatever [end] is, when the address starts
    with ['/'].  The count advances by the size of the wire form, less 4
    for every string argument whose length is a multiple of 4. *)
Theorem readMessage_decodes_encoding :
  forall m rest s0 end_,
    no_nul (address m) = true ->
    forallb decodable_arg (Arguments m) = true ->
    readMessage (mkDecState (encode_message m ++ rest) s0) =
    (Ret m,
     mkDecState rest (s0 + Z.of_nat (length (encode_message m))
                      - 4 * short_strings (Arguments m))) /\
    (starts_with_slash (address m) = true ->
     readPacket end_ (mkDecState (encode_message m ++ rest) s0) =
     (Ret (MessagePacket m),
      mkDecState rest (s0 + Z.of_nat (length (encode_message m))
                       - 4 * short_strings (Arguments m)))).
Proof.
  intros m rest s0 end_ Hadr Hargs. split.
  - apply readMessage_encoding; assumption.
  - intros Hslash. apply readPacket_message_encoding; assumption.
Qed.

(** ** Decoding bundles of messages *)
Lemma fold_Bundle_Append ps : forall timeTag acc,
  fold_left Bundle_Append ps (mkBundle timeTag acc) = mkBundle timeTag (acc ++ ps).
Proof.
  induction ps as [| p ps IH]; intros timeTag acc; simpl.
  - rewrite app_nil_r. reflexivity.
  - rewrite IH, <- app_assoc. reflexivity.
Qed.

Lemma length_encode_message_pos m : (0 < length (encode_message m))%nat.
Proof.
  unfold encode_message, osc_string. rewrite !length_app. simpl. lia.
Qed.

Lemma readBundle_for_encoding end_ elems :
  forall bundle rest s0,
    forallb (fun e => decodable_message (snd e) && exactly_counted (snd e))
            elems = true ->
    end_ = s0 + Z.of_nat (length (encode_elements elems)) ->
    readBundle_for end_ bundle
      (mkDecState (encode_elements elems ++ rest) s0) =
    (Ret (fold_left Bundle_Append
            (map (fun e => MessagePacket (snd e)) elems) bundle),
     mkDecState rest end_).
Proof.
  induction elems as [| [l m] elems IH]; intros bundle rest s0 Hok Hend.
  - rewrite readBundle_for_unfold. cbn [start]. simpl in Hend.
    destruct (Z.ltb_spec s0 end_); [lia |].
    simpl. do 2 f_equal. lia.
  - cbn [forallb fst snd] in Hok.
    apply andb_prop in Hok. destruct Hok as [Hm Hok].
    apply andb_prop in Hm. destruct Hm as [Hdec Hexact].
    unfold decodable_message in Hdec.
    apply andb_prop in Hdec. destruct Hdec as [Hdec Hargs].
    apply andb_prop in Hdec. destruct Hdec as [Hnul Hslash].
    unfold exactly_counted in Hexact. apply Z.eqb_eq in Hexact.
    unfold encode_elements in *. cbn [map concat fst snd] in *.
    rewrite !length_app, length_be_bytes in Hend.
    pose proof (length_encode_message_pos m).
    rewrite readBundle_for_unfold. cbn [start].
    destruct (Z.ltb_spec s0 end_); [| lia].
    rewrite <- !app_assoc.
    unfold bind_err. rewrite binary_Read_be_bytes by reflexivity.
    unfold bind at 1. cbn [add_start reader start].
    unfold bind at 1.
    rewrite (readPacket_message_encoding m _ (s0 + 4) end_ Hnul Hargs Hslash).
    rewrite Hexact. rewrite IH; [reflexivity | exact Hok |]. lia.
Qed.

Lemma readBundle_encoding timeTag elems rest s0 :
  0 <= timeTag < 2 ^ 64 ->
  forallb (fun e => decodable_message (snd e) && exactly_counted (snd e))
          elems = true ->
  readBundle (s0 + Z.of_nat (length (encode_bundle timeTag elems)))
    (mkDecState (encode_bundle timeTag elems ++ rest) s0) =
  (Ret (mkBundle timeTag (map (fun e => MessagePacket (snd e)) elems)),
   mkDecState rest (s0 + Z.of_nat (length (encode_bundle timeTag elems)))).
Proof.
  intros Htt Hok.
  remember (s0 + Z.of_nat (length (encode_bundle timeTag elems))) as end_
    eqn:Hend.
  rewrite readBundle_unfold. unfold readBundle_with.
  unfold encode_bundle in *. rewrite <- !app_assoc.
  unfold bind at 1. rewrite readPaddedString_osc_string by reflexivity.
  unfold bind at 1. cbn [add_start reader start fst snd].
  change (negb (String.eqb BundleTag BundleTag)) with false. cbv iota.
  unfold bind at 1. rewrite binary_Read_be_bytes by reflexivity.
  unfold bind at 1. cbn [add_start reader start decode_be].
  rewrite be_uint_be_bytes. change (8 * Z.of_nat 8) with 64.
  rewrite Z.mod_small by exact Htt.
  rewrite (readBundle_for_encoding end_ elems) by
    (try exact Hok; subst end_; rewrite !length_app, length_be_bytes;
     change (length (osc_string BundleTag)) with 8%nat; lia).
  unfold NewBundle. rewrite fold_Bundle_Append. reflexivity.
Qed.

Lemma readPacket_bundle_encoding timeTag elems rest s0 :
  0 <= timeTag < 2 ^ 64 ->
  forallb (fun e => decodable_message (snd e) && exactly_counted (snd e))
          elems = true ->
  readPacket (s0 + Z.of_nat (length (encode_bundle timeTag elems)))
    (mkDecState (encode_bundle timeTag elems ++ rest) s0) =
  (Ret (BundlePacket
          (mkBundle timeTag (map (fun e => MessagePacket (snd e)) elems))),
   mkDecState rest (s0 + Z.of_nat (length (encode_bundle timeTag elems)))).
Proof.
  intros Htt Hok. rewrite readPacket_unfold. unfold bind at 1.
  assert (HP : Peek1 (mkDecState (encode_bundle timeTag elems ++ rest) s0) =
               (Ret "#"%byte,
                mkDecState (encode_bundle timeTag elems ++ rest) s0))
    by reflexivity.
  rewrite HP. change (Byte.eqb "#" "/") with false.
  change (Byte.eqb "#" "#") with true. cbv iota.
  unfold bind. rewrite (readBundle_encoding _ _ _ _ Htt Hok). reflexivity.
Qed.

(** Decoding a bundle of messages.  Let the input start with the wire form
    of a bundle whose elements are well-formed messages with no string
    argument of a length that is a multiple of 4, each behind 4 bytes that
    declare any size at all, and let [end] be the count at the end of that
    wire form.  Then [readBundle], and [readPacket], return the bundle with
    its timetag and these messages in order, leave what follows unread and
    the count at [end]: the declared sizes are read and never used. *)
Theorem readBundle_decodes_encoding :
  forall timeTag elems rest s0,
    0 <= timeTag < 2 ^ 64 ->
    forallb (fun e => decodable_message (snd e) && exactly_counted (snd e))
            elems = true ->
    let wire := encode_bundle timeTag elems in
    let end_ := s0 + Z.of_nat (length wire) in
    let bundle := mkBundle timeTag (map (fun e => MessagePacket (snd e)) elems) in
    readBundle end_ (mkDecState (wire ++ rest) s0) =
      (Ret bundle, mkDecState rest end_) /\
    readPacket end_ (mkDecState (wire ++ rest) s0) =
      (Ret (BundlePacket bundle), mkDecState rest end_).
Proof.
  intros timeTag elems rest s0 Htt Hok wire end_ bundle. split.
  - apply readBundle_encoding; assumption.
  - apply readPacket_bundle_encoding; assumption.
Qed.

Lemma encode_elements_app elems1 elems2 :
  encode_elements (elems1 ++ elems2) =
  encode_elements elems1 ++ encode_elements elems2.
Proof. unfold encode_elements. rewrite map_app, concat_app. reflexivity. Qed.

(** A bundle inside a bundle takes all that follows.  [readBundle] hands
    the [end] of the datagram on to the nested call, whose loop runs until
    the count reaches it as well: when the first element of a bundle is
    itself a bundle of messages, the messages that follow it on the wire
    become elements of the inner bundle, and the outer bundle holds that
    one element. *)
Theorem readBundle_nested_bundle_takes_the_rest :
  forall timeTag0 timeTag1 l elems1 elems2 rest s0,
    0 <= timeTag0 < 2 ^ 64 ->
    0 <= timeTag1 < 2 ^ 64 ->
    forallb (fun e => decodable_message (snd e) && exactly_counted (snd e))
            (elems1 ++ elems2) = true ->
    let wire :=
      osc_string BundleTag ++ be_bytes 8 timeTag0 ++
      be_bytes 4 l ++ encode_bundle timeTag1 elems1 ++
      encode_elements elems2 in
    let end_ := s0 + Z.of_nat (length wire) in
    readBundle end_ (mkDecState (wire ++ rest) s0) =
    (Ret (mkBundle timeTag0
            [BundlePacket
               (mkBundle timeTag1
                  (map (fun e => MessagePacket (snd e)) (elems1 ++ elems2)))]),
     mkDecState rest end_).
Proof.
  intros timeTag0 timeTag1 l elems1 elems2 rest s0 Ht0 Ht1 Hok wire end_.
  assert (Hinner : encode_bundle timeTag1 elems1 ++ encode_elements elems2 =
                   encode_bundle timeTag1 (elems1 ++ elems2)).
  { unfold encode_bundle. rewrite encode_elements_app, <- !app_assoc.
    reflexivity. }
  assert (Hend : end_ = s0 + 20 + Z.of_nat (length (encode_bundle timeTag1
                                                     (elems1 ++ elems2)))).
  { subst end_ wire. rewrite <- Hinner.
    rewrite !length_app, !length_be_bytes.
    change (length (osc_string BundleTag)) with 8%nat. lia. }
  assert (Hpos : (16 <= length (encode_bundle timeTag1 (elems1 ++ elems2)))%nat).
  { unfold encode_bundle. rewrite !length_app, length_be_bytes.
    change (length (osc_string BundleTag)) with 8%nat. lia. }
  rewrite readBundle_unfold. unfold readBundle_with.
  subst wire. rewrite <- !app_assoc.
  unfold bind at 1. rewrite readPaddedString_osc_string by reflexivity.
  unfold bind at 1. cbn [add_start reader start fst snd].
  change (negb (String.eqb BundleTag BundleTag)) with false. cbv iota.
  unfold bind at 1. rewrite binary_Read_be_bytes by reflexivity.
  unfold bind at 1. cbn [add_start reader start decode_be].
  rewrite be_uint_be_bytes. change (8 * Z.of_nat 8) with 64.
  rewrite Z.mod_small by exact Ht0.
  change (Z.of_nat (length (osc_string BundleTag))) with 8.
  rewrite readBundle_for_unfold. cbn [start].
  destruct (Z.ltb_spec (s0 + 8 + 8) end_); [| lia].
  unfold bind_err. rewrite binary_Read_be_bytes by reflexivity.
  unfold bind at 1. cbn [add_start reader start].
  rewrite (app_assoc (encode_bundle timeTag1 elems1)), Hinner.
  unfold bind at 1.
  pose proof (readPacket_bundle_encoding timeTag1 (elems1 ++ elems2)
                rest (s0 + 8 + 8 + 4) Ht1 Hok) as Hp.
  replace (s0 + 8 + 8 + 4 +
           Z.of_nat (length (encode_bundle timeTag1 (elems1 ++ elems2))))
    with end_ in Hp by lia.
  rewrite Hp.
  rewrite readBundle_for_unfold. cbn [start].
  destruct (Z.ltb_spec end_ end_); [lia |]. reflexivity.
Qed.

(** ** What the decoder returns *)
Lemma readMessage_well_formed st m st' :
  readMessage st = (Ret m, st') ->
  no_nul (address m) && forallb decodable_arg (Arguments m) = true.
Proof.
  unfold readMessage, readArguments, bind, raise, fail.
  destruct (readPaddedString st) as [[p | | | ] st1] eqn:E1; try discriminate.
  cbn [add_start].
  destruct (readPaddedString (mkDecState _ _)) as [[p2 | | | ] st2] eqn:E2;
    try discriminate.
  cbn [add_start].
  destruct (fst p2) as [| c typetags]; [cbv beta; discriminate |].
  destruct (negb _); [cbv beta; discriminate |].
  intros H. apply readArguments_loop_appends_prefix in H.
  destruct H as (Hadr & args & rest & Hargs & _ & Hok).
  cbn [address Arguments app] in *. rewrite Hadr, Hargs, Hok.
  rewrite (readPaddedString_no_nul _ _ _ E1). reflexivity.
Qed.

Lemma well_formed_Bundle_Append bundle p :
  well_formed_packet (BundlePacket bundle) = true ->
  well_formed_packet p = true ->
  well_formed_packet (BundlePacket (Bundle_Append bundle p)) = true.
Proof.
  destruct bundle as [timeTag elems]. cbn [well_formed_packet Bundle_Append].
  intros H Hp. apply andb_prop in H. destruct H as [Ht He].
  rewrite Ht, forallb_app, He. cbn [forallb]. rewrite Hp. reflexivity.
Qed.

Lemma well_formed_rec end_ fuel :
  (forall st p st',
      readPacket_rec fuel end_ st = (Ret p, st') ->
      well_formed_packet p = true) /\
  (forall bundle st b' st',
      well_formed_packet (BundlePacket bundle) = true ->
      readBundle_loop fuel end_ bundle st = (Ret b', st') ->
      well_formed_packet (BundlePacket b') = true).
Proof.
  induction fuel as [| fuel [IHp IHl]].
  - split; [discriminate |].
    intros bundle st b' st' Hb. simpl.
    destruct (start st <? end_); [discriminate |].
    intros [= <- _]. exact Hb.
  - split.
    + intros st p st'. simpl. unfold bind at 1.
      destruct (Peek1 st) as [[b | | | ] st1]; try discriminate.
      destruct (Byte.eqb b "/").
      { unfold bind, ret.
        destruct (readMessage st1) as [[m | | | ] st2] eqn:Em;
          try discriminate.
        intros [= <- _]. exact (readMessage_well_formed _ _ _ Em). }
      destruct (Byte.eqb b "#"); [| intros [= <- _]; reflexivity].
      unfold readBundle_with, bind, ret, fail.
      destruct (readPaddedString st1) as [[q | | | ] st2]; try discriminate.
      cbn [add_start].
      destruct (negb _); [discriminate |].
      destruct (binary_Read Tuint64 _) as [[timeTag | | | ] st3] eqn:Et;
        try discriminate.
      cbn [add_start].
      destruct (readBundle_loop fuel end_ _ _) as [[b' | | | ] st4] eqn:El;
        try discriminate.
      intros [= <- _]. eapply IHl; [| exact El].
      cbn [well_formed_packet NewBundle forallb].
      rewrite andb_true_r.
      apply (binary_Read_decodable _ _ _ _ ArgTimetag Et). simpl. tauto.
    + intros bundle st b' st' Hb. simpl.
      destruct (start st <? end_); [| intros [= <- _]; exact Hb].
      unfold bind_err, bind, fail.
      destruct (binary_Read Tint32 st) as [[v | | | ] st1]; try discriminate.
      cbn [add_start].
      destruct (readPacket_rec fuel end_ _) as [[packet | | | ] st3] eqn:Ep;
        try discriminate.
      intros Hl. eapply IHl; [| exact Hl].
      apply well_formed_Bundle_Append; [exact Hb |].
      exact (IHp _ _ _ Ep).
Qed.

(** Every packet [readPacket] returns is well formed all the way down: the
    address and the strings of a message hold no zero byte, its numbers fit
    their types and it holds no blob; the timetag of a bundle is a 64-bit
    value and its elements are well formed in turn. *)
Theorem readPacket_returns_well_formed :
  forall end_ st packet st',
    readPacket end_ st = (Ret packet, st') ->
    well_formed_packet packet = true.
Proof.
  intros end_ st packet st' H.
  exact (proj1 (well_formed_rec end_ _) _ _ _ H).
Qed.

(** [readPacket] and [readBundle] come to an end on every input, however
    the bundles in it nest, and hand no byte back to the reader. *)
Theorem readPacket_terminates :
  forall end_ st,
    fst (readPacket end_ st) <> OutOfFuel /\
    fst (readBundle end_ st) <> OutOfFuel /\
    (length (reader (snd (readPacket end_ st))) <= length (reader st))%nat /\
    (length (reader (snd (readBundle end_ st))) <= length (reader st))%nat.
Proof.
  intros end_ st.
  destruct (readPacket_total end_ st) as [H1 H2].
  destruct (readBundle_total end_ st) as [H3 H4]. auto.
Qed.

(** ** The server loop and its life cycle *)

Section ServerExtras.
Context {HandlerFunc : Type}.
Implicit Types self : Server HandlerFunc.

Lemma readFromConnection_message self c m :
  conn self = Some c ->
  decodable_message m = true ->
  Z.of_nat (length (encode_message m)) <= 65535 ->
  readFromConnection self (Datagram (encode_message m)) =
  Ret (MessagePacket m).
Proof.
  intros Hc Hm Hlen. unfold readFromConnection. rewrite Hc.
  unfold ReadFromUDP.
  remember (repeat x00 (Z.to_nat 65535)) as zeros eqn:Hz.
  assert (Hzl : length zeros = Z.to_nat 65535)
    by (subst zeros; apply repeat_length).
  rewrite Hzl, Nat.min_l by lia.
  rewrite firstn_all.
  unfold decodable_message in Hm.
  apply andb_prop in Hm. destruct Hm as [Hm Hargs].
  apply andb_prop in Hm. destruct Hm as [Hnul Hslash].
  rewrite (readPacket_message_encoding m _ 0 _ Hnul Hargs Hslash).
  reflexivity.
Qed.

Lemma ListenAndDispatch_loop_messages :
  forall self c ms,
    conn self = Some c ->
    running self = true ->
    forallb (fun m => decodable_message m &&
                      (Z.of_nat (length (encode_message m)) <=? 65535))
            ms = true ->
    ListenAndDispatch_loop self (map (fun m => Datagram (encode_message m)) ms) =
    (map MessagePacket ms, Waiting).
Proof.
  intros self c ms Hc Hrun. induction ms as [| m ms IH]; intros Hok.
  - simpl. rewrite Hrun. reflexivity.
  - cbn [forallb] in Hok. apply andb_prop in Hok. destruct Hok as [Hm Hok].
    apply andb_prop in Hm. destruct Hm as [Hm Hlen]. apply Z.leb_le in Hlen.
    cbn [map ListenAndDispatch_loop]. rewrite Hrun.
    rewrite (readFromConnection_message self c m Hc Hm Hlen).
    rewrite (IH Hok). reflexivity.
Qed.

Lemma ListenAndDispatch_loop_ends_only_by_panic :
  forall self c incoming,
    conn self = Some c ->
    running self = true ->
    let r := ListenAndDispatch_loop self incoming in
    (snd r = Waiting /\ length (fst r) = length incoming) \/
    (exists p, snd r = Panicked p /\ (length (fst r) < length incoming)%nat).
Proof.
  intros self c incoming Hc Hrun. cbv zeta.
  induction incoming as [| rd incoming IH].
  - left. simpl. rewrite Hrun. auto.
  - cbn [ListenAndDispatch_loop]. rewrite Hrun.
    unfold readFromConnection. rewrite Hc.
    destruct (ReadFromUDP rd (repeat x00 (Z.to_nat 65535)))
      as [[n data] oerr].
    pose proof (proj1 (readPacket_total n (mkDecState data 0))) as Htot.
    destruct (fst (readPacket n (mkDecState data 0)))
      as [packet | e | p | ]; [| | | congruence].
    + destruct (ListenAndDispatch_loop self incoming) as [ds fin].
      cbn [fst snd length] in *.
      destruct IH as [[-> Hl] | (p & -> & Hl)];
        [left; split; [reflexivity | lia]
        | right; exists p; split; [reflexivity | lia]].
    + destruct (ListenAndDispatch_loop self incoming) as [ds fin].
      cbn [fst snd length] in *.
      destruct IH as [[-> Hl] | (p & -> & Hl)];
        [left; split; [reflexivity | lia]
        | right; exists p; split; [reflexivity | lia]].
    + right. exists p. cbn [fst snd length]. split; [reflexivity | lia].
Qed.

(** The datagrams of well-formed messages reach the dispatcher.  A new
    server whose [connect] succeeds, reading datagrams that each hold the
    wire form of a well-formed message (without blobs, address starting
    with ['/'], at most 65535 bytes), hands exactly these messages to
    [Dispatch], one call for every datagram and in the order of arrival,
    and then waits for the next datagram. *)
Theorem ListenAndDispatch_delivers_messages :
  forall addr deadline_err ms,
    forallb (fun m => decodable_message m &&
                      (Z.of_nat (length (encode_message m)) <=? 65535))
            ms = true ->
    ListenAndDispatch (NewServer (HandlerFunc := HandlerFunc) addr)
      None deadline_err (map (fun m => Datagram (encode_message m)) ms) =
    (map MessagePacket ms, Waiting).
Proof.
  intros addr deadline_err ms Hok.
  unfold ListenAndDispatch, NewServer.
  cbn [running dispatcher readTimeout Address conn]. cbn [Z.eqb].
  apply (ListenAndDispatch_loop_messages _ udpConn); [reflexivity .. | exact Hok].
Qed.

(** Once [connect] has succeeded on a new server, [ListenAndDispatch] does
    not return, whatever arrives: every read is followed by exactly one
    call of [Dispatch], until the reads are used up and it waits for the
    next, unless the decoder panics on a datagram, which ends the loop
    before the call for that datagram. *)
Theorem ListenAndDispatch_never_returns :
  forall addr deadline_err incoming,
    let r := ListenAndDispatch (NewServer (HandlerFunc := HandlerFunc) addr)
               None deadline_err incoming in
    (snd r = Waiting /\ length (fst r) = length incoming) \/
    (exists p, snd r = Panicked p /\ (length (fst r) < length incoming)%nat).
Proof.
  intros addr deadline_err incoming.
  unfold ListenAndDispatch, NewServer.
  cbn [running dispatcher readTimeout Address conn]. cbn [Z.eqb].
  apply (ListenAndDispatch_loop_ends_only_by_panic _ udpConn); reflexivity.
Qed.

(** The life cycle around [Listen].  [Close] on a server that was never
    connected returns nil.  After a [Listen] that returned nil the server
    is connected and running with the dispatcher it had, so that a second
    [Listen] and every [ListenAndDispatch] return [ErrAlreadyRunning], the
    latter without a single read, and [Close] returns what closing the
    connection returns. *)
Theorem Listen_then_ListenAndDispatch :
  forall self connect_err,
    (conn self = None -> forall close_err, Close self close_err = None) /\
    (fst (Listen self connect_err) = None ->
     let self' := snd (Listen self connect_err) in
     running self' = true /\
     conn self' <> None /\
     dispatcher self' = dispatcher self /\
     (forall ce, fst (Listen self' ce) = Some ErrAlreadyRunning) /\
     (forall ce de incoming,
         ListenAndDispatch self' ce de incoming =
         ([], Returned (Some ErrAlreadyRunning))) /\
     (forall close_err, Close self' close_err = close_err)).
Proof.
  intros self connect_err. split.
  { intros Hc close_err. unfold Close. rewrite Hc. reflexivity. }
  unfold Listen, Listen_connected.
  destruct (conn self) as [c |] eqn:Hc.
  - destruct (running self) eqn:Hr; [discriminate |].
    intros _. cbn [fst snd running conn dispatcher].
    unfold Listen, Listen_connected, ListenAndDispatch, Close.
    cbn [running conn]. rewrite ?Hc. repeat split; congruence.
  - destruct connect_err as [err |]; [discriminate |].
    cbn [running]. destruct (running self) eqn:Hr; [discriminate |].
    intros _. cbn [fst snd running conn dispatcher].
    unfold Listen, Listen_connected, ListenAndDispatch, Close.
    cbn [running conn]. repeat split; congruence.
Qed.
End ServerExtras.

(** A number that is cut short.  On the tag of an int32, int64, float32 or
    float64, with fewer bytes left than the number takes, the loop of
    [readArguments] fails with [io.EOF] when no byte is left and with
    [io.ErrUnexpectedEOF] when some bytes are, having consumed what was
    left and not touched the count. *)
Theorem readArguments_loop_truncated_number :
  forall c t size mk typetags msg st,
    fixed_width_tag c = Some (t, size, mk) ->
    c <> "t"%char ->
    Z.of_nat (length (reader st)) < size ->
    readArguments_loop (String c typetags) msg st =
    (Fail (match reader st with
           | [] => EOF
           | _ :: _ => ErrUnexpectedEOF
           end),
     mkDecState [] (start st)) /\
    is_TruncatedInput (match reader st with
                       | [] => EOF
                       | _ :: _ => ErrUnexpectedEOF
                       end) = true.
Proof.
  unfold fixed_width_tag. intros c t size mk typetags msg st Htag Hc Hlen.
  split; [| destruct (reader st); reflexivity].
  repeat match type of Htag with
         | (if (c =? ?x)%char then _ else _) = _ =>
           destruct (Ascii.eqb_spec c x) as [-> | _]
         end;
    try discriminate; try congruence;
    injection Htag as <- <- <-;
    cbn [readArguments_loop Ascii.eqb Bool.eqb];
    unfold binary_Read; cbn [dataSize]; unfold bind, ReadFull;
    match goal with
    | |- context [(?n <=? ?l)%nat] => destruct (Nat.leb_spec n l); [lia |]
    end;
    reflexivity.
Qed.

(** ** The properties above at work *)

(** The wire forms written with [encode_message] and [encode_bundle] are
    the datagrams spelled out byte by byte further up. *)
Lemma encode_examples :
  encode_message (mkMessage "/address/test" [ArgInt32 1122]) = dgram_test /\
  encode_message (mkMessage "/a" [ArgString "abcd"]) = dgram_string4 /\
  encode_bundle 1 [(16, mkMessage "/a" [ArgString "abcd"])] =
    dgram_bundle_string4.
Proof. repeat split; vm_compute; reflexivity. Qed.

(** A bundle of 32 bytes with one message, read with [end] at 32. *)
Lemma readBundle_reads_up_to_end_witness :
  32 <= start (mkDecState [] 32) /\
  Z.of_nat (length (Bundle_Elements
                      (mkBundle 1 [MessagePacket (mkMessage "/a" [ArgInt32 7])]))) <=
  Z.max 0 ((32 - 0 - 13) / 4).
Proof.
  apply (readBundle_reads_up_to_end 32
           (mkDecState (encode_bundle 1 [(12, mkMessage "/a" [ArgInt32 7])]) 0)
           (mkBundle 1 [MessagePacket (mkMessage "/a" [ArgInt32 7])])
           (mkDecState [] 32)).
  vm_compute. reflexivity.
Defined.

(** The tags ["iTs"] over an int32 and the string ["xy"]. *)
Lemma readArguments_loop_appends_witness :
  address (mkMessage "/a" [ArgInt32 (-2); ArgBool true; ArgString "xy"]) =
  address (mkMessage "/a" []) /\
  exists args rest,
    Arguments (mkMessage "/a" [ArgInt32 (-2); ArgBool true; ArgString "xy"]) =
    Arguments (mkMessage "/a" []) ++ args /\
    list_ascii_of_string "iTs" = map tag_of args ++ rest /\
    (length args <= String.length "iTs")%nat /\
    forallb decodable_arg args = true.
Proof.
  apply (readArguments_loop_appends "iTs" (mkMessage "/a" [])
           (mkDecState ([xff; xff; xff; xfe] ++ bytes "xy" ++ [x00; x00]) 8)
           _ (mkDecState [] 16)).
  vm_compute. reflexivity.
Defined.

(** The message of [TestServerMessageDispatching] with a byte behind it. *)
Lemma readMessage_decodes_encoding_witness :
  readMessage (mkDecState (dgram_test ++ [x01]) 0) =
  (Ret (mkMessage "/address/test" [ArgInt32 1122]), mkDecState [x01] 24).
Proof.
  apply (proj1 (readMessage_decodes_encoding
                  (mkMessage "/address/test" [ArgInt32 1122]) [x01] 0 0
                  eq_refl eq_refl)).
Defined.

(** A bundle of two messages whose declared sizes are 0 and 99. *)
Lemma readBundle_decodes_encoding_witness :
  fst (readBundle 52
         (mkDecState
            (encode_bundle 5 [(0, mkMessage "/a" [ArgInt32 7]);
                              (99, mkMessage "/b/c" [ArgString "xy"; ArgBool false])])
            0)) =
  Ret (mkBundle 5 [MessagePacket (mkMessage "/a" [ArgInt32 7]);
                   MessagePacket (mkMessage "/b/c" [ArgString "xy"; ArgBool false])]).
Proof.
  refine (f_equal fst
            (proj1 (readBundle_decodes_encoding 5
                      [(0, mkMessage "/a" [ArgInt32 7]);
                       (99, mkMessage "/b/c" [ArgString "xy"; ArgBool false])]
                      [] 0 _ eq_refl))).
  split; [discriminate | reflexivity].
Defined.

(** The bundle with a short string and the nil packet that follows it. *)
Lemma readPacket_returns_well_formed_witness :
  well_formed_packet
    (BundlePacket
       (mkBundle 1 [MessagePacket (mkMessage "/a" [ArgString "abcd"]);
                    NilPacket])) = true.
Proof.
  apply (readPacket_returns_well_formed 36
           (mkDecState (dgram_bundle_string4 ++ [x00; x00; x00; x00; x00]) 0)
           _ (mkDecState [x00] 36)).
  vm_compute. reflexivity.
Defined.

(** Two datagrams with well-formed messages on a new server. *)
Lemma ListenAndDispatch_delivers_messages_witness :
  ListenAndDispatch (NewServer (HandlerFunc := unit) "localhost:6677")
    None None [Datagram dgram_test; Datagram dgram_string4] =
  ([MessagePacket (mkMessage "/address/test" [ArgInt32 1122]);
    MessagePacket (mkMessage "/a" [ArgString "abcd"])], Waiting).
Proof.
  apply (ListenAndDispatch_delivers_messages (HandlerFunc := unit)
           "localhost:6677" None
           [mkMessage "/address/test" [ArgInt32 1122];
            mkMessage "/a" [ArgString "abcd"]]).
  vm_compute. reflexivity.
Defined.

(** A new server: closed before it is connected, then [Listen] followed by
    [ListenAndDispatch]. *)
Lemma Listen_then_ListenAndDispatch_witness :
  Close (NewServer (HandlerFunc := unit) "127.0.0.1:8000") (Some ErrConnNil) =
    None /\
  ListenAndDispatch
    (snd (Listen (NewServer (HandlerFunc := unit) "127.0.0.1:8000") None))
    None None [Datagram dgram_test] =
  ([], Returned (Some ErrAlreadyRunning)).
Proof.
  destruct (Listen_then_ListenAndDispatch
              (NewServer (HandlerFunc := unit) "127.0.0.1:8000") None)
    as [Hclose Hlisten].
  split.
  - apply Hclose. reflexivity.
  - apply (Hlisten eq_refl).
Defined.

(** An int32 with two bytes left, and an int64 with none. *)
Lemma readArguments_loop_truncated_number_witness :
  readArguments_loop "i" (mkMessage "/a" []) (mkDecState [x00; x01] 8) =
    (Fail ErrUnexpectedEOF, mkDecState [] 8) /\
  readArguments_loop "h" (mkMessage "/a" []) (mkDecState [] 8) =
    (Fail EOF, mkDecState [] 8).
Proof.
  split.
  - apply (readArguments_loop_truncated_number
             "i" Tint32 4 ArgInt32 "" (mkMessage "/a" [])
             (mkDecState [x00; x01] 8));
      [reflexivity | discriminate | reflexivity].
  - apply (readArguments_loop_truncated_number
             "h" Tint64 8 ArgInt64 "" (mkMessage "/a" [])
             (mkDecState [] 8));
      [reflexivity | discriminate | reflexivity].
Defined.

(** A bundle that holds a bundle with one message, and a message. *)
Lemma readBundle_nested_bundle_takes_the_rest_witness :
  fst (readBundle 72
         (mkDecState
            (osc_string BundleTag ++ be_bytes 8 1 ++ be_bytes 4 32 ++
             encode_bundle 2 [(12, mkMessage "/in" [ArgInt32 1])] ++
             encode_elements [(12, mkMessage "/out" [ArgInt32 2])]) 0)) =
  Ret (mkBundle 1
         [BundlePacket
            (mkBundle 2 [MessagePacket (mkMessage "/in" [ArgInt32 1]);
                         MessagePacket (mkMessage "/out" [ArgInt32 2])])]).
Proof.
  refine (f_equal fst
            (readBundle_nested_bundle_takes_the_rest 1 2 32
               [(12, mkMessage "/in" [ArgInt32 1])]
               [(12, mkMessage "/out" [ArgInt32 2])] [] 0 _ _ _)).
  - split; [discriminate | reflexivity].
  - split; [discriminate | reflexivity].
  - reflexivity.
Defined.
